(** * Neuro-Stream: the multimodal video indexing and retrieval pipeline

    A shallow embedding of [src/processor.py], [src/embedding.py],
    [src/vector_store.py] and [src/api.py].

    Python values are a small inductive type, dictionaries are finite maps
    with string keys, floats are IEEE 754 binary64 numbers (the kernel's
    primitive floats), and the effectful code is written in a state and
    exception monad over a [world]: the files on disk, the identifiers
    drawn so far and the trace of the calls made to the collaborators
    (logger, codec library, embedding model, vector index). *)

From Stdlib Require Import ZArith String Ascii Floats List Bool Lia.
From stdpp Require Import gmap strings list fin_maps.
Import ListNotations.

#[local] Set Warnings "-register-all,-inexact-float,-clear-no-such-hyp".

Local Open Scope string_scope.
Local Open Scope list_scope.

(** ** Python values *)

Module Py.

(** The exception classes the modelled code raises or catches.  All of
    them derive from [Exception]. *)
Inductive exn : Type :=
| FileNotFoundError
| ZeroDivisionError
| ValueError
| OverflowError
| IndexError
| OSError
| AttributeError
| RuntimeError.

(** [except OSError] also catches the subclasses of [OSError]. *)
Definition is_OSError (e : exn) : bool :=
  match e with
  | OSError | FileNotFoundError => true
  | _ => false
  end.

(** The outcome of a Python call: a value, or a raised exception. *)
Inductive outcome (A : Type) : Type :=
| Ret (a : A)
| Raise (e : exn).
Arguments Ret {A} a.
Arguments Raise {A} e.

(** The values that travel in payloads and intermediate dictionaries. *)
Inductive pyval : Type :=
| PNone
| PBool (b : bool)
| PInt (z : Z)
| PFloat (f : float)
| PStr (s : string)
| PList (l : list pyval).

(** Truth value testing ([if x:]). *)
Definition truthy (v : pyval) : bool :=
  match v with
  | PNone => false
  | PBool b => b
  | PInt z => negb (z =? 0)%Z
  | PFloat f => negb (PrimFloat.eqb f 0%float)
  | PStr s => negb (String.eqb s "")
  | PList l => match l with [] => false | _ :: _ => true end
  end.

(** Truth value of a list ([if frames:], [if points:]). *)
Definition nonempty {A} (l : list A) : bool :=
  match l with
  | [] => false
  | _ :: _ => true
  end.

(** [d.get(k)] and [d.get(k, None)]. *)
Definition dict_get (d : gmap string pyval) (k : string) : pyval :=
  default PNone (d !! k).

(** [{**base, **extra}]: the keys of [extra] override those of [base]. *)
Definition dict_spread (base extra : gmap string pyval) : gmap string pyval :=
  extra ∪ base.

(** *** Strings

    A [str] is the sequence of its characters; a character is an [ascii],
    read as a code point below 256.  [str.strip()] removes the leading
    and trailing characters for which [str.isspace] holds: in that range
    the code points 9-13, 28-32, 133 and 160. *)
Definition isspace (c : ascii) : bool :=
  let n := N_of_ascii c in
  ((9 <=? n) && (n <=? 13) || (28 <=? n) && (n <=? 32)
   || (n =? 133) || (n =? 160))%N.

Fixpoint lstrip (s : string) : string :=
  match s with
  | EmptyString => EmptyString
  | String c s' => if isspace c then lstrip s' else s
  end.

Fixpoint rstrip (s : string) : string :=
  match s with
  | EmptyString => EmptyString
  | String c s' =>
      match rstrip s' with
      | EmptyString => if isspace c then EmptyString else String c EmptyString
      | r => String c r
      end
  end.

Definition strip (s : string) : string := rstrip (lstrip s).

(** A string made of whitespace only. *)
Fixpoint blank (s : string) : bool :=
  match s with
  | EmptyString => true
  | String c s' => isspace c && blank s'
  end.

(** *** Numbers *)

(** [float(z)] for an [int]: the nearest binary64 number, ties to even;
    [OverflowError] beyond the range of a float. *)
Definition float_of_int (z : Z) : outcome float :=
  match binary_normalize prec emax z 0 false with
  | S754_infinity _ => Raise OverflowError
  | sf => Ret (SF2Prim sf)
  end.

(** [int(x)] for a [float]: truncation towards zero; [ValueError] on a
    NaN and [OverflowError] on an infinity. *)
Definition int_of_float (x : float) : outcome Z :=
  match Prim2SF x with
  | S754_zero _ => Ret 0%Z
  | S754_infinity _ => Raise OverflowError
  | S754_nan => Raise ValueError
  | S754_finite s m e =>
      let v := match e with
               | Z0 => Zpos m
               | Zpos p => (Zpos m * 2 ^ Zpos p)%Z
               | Zneg p => (Zpos m / 2 ^ Zpos p)%Z
               end in
      Ret (if s then (- v)%Z else v)
  end.

(** [x * n] for a [float] and an [int]. *)
Definition float_mul_int (x : float) (n : Z) : outcome float :=
  match float_of_int n with
  | Ret y => Ret (PrimFloat.mul x y)
  | Raise e => Raise e
  end.

End Py.
Export Py.

(** ** The data the pipeline passes around *)

(** A decoded picture: rows of pixels, three channels each. *)
Definition ndarray : Type := list (list (Z * Z * Z)).

(** [cv2.cvtColor(frame, cv2.COLOR_BGR2RGB)]: the first and the third
    channel change places. *)
Definition cvtColor_BGR2RGB (frame : ndarray) : ndarray :=
  map (map (fun px => match px with (b, g, r) => (r, g, b) end)) frame.

(** A PIL image ([Image.fromarray]). *)
Record Image : Type := fromarray { pixels : ndarray }.

(** An extracted frame: the dictionary [{'image': ..., 'timestamp': ...}]. *)
Record Frame : Type := { image : Image; timestamp : float }.

(** A transcript segment: a dictionary with the keys [start], [end] and
    [text], both as Whisper yields it and as the processor returns it. *)
Record Segment : Type := { start : float; end_ : float; text : string }.

(** [qdrant_client.models.PointStruct]. *)
Record PointStruct : Type :=
  { id : string; vector : pyval; payload : gmap string pyval }.

(** A hit of [query_points]: its score and its payload, which the client
    types as optional. *)
Record ScoredPoint : Type :=
  { score : float; hit_payload : option (gmap string pyval) }.

(** What [cv2.VideoCapture] offers for a path: whether it opened, the
    frame rate it reports and, in order, the frames that [cap.read()]
    delivers before it reports failure, each with the position counter
    [CAP_PROP_POS_MSEC] as it stands after that read. *)
Record decoded : Type := { bgr : ndarray; pos_msec : float }.
Record capture : Type :=
  { isOpened : bool; CAP_PROP_FPS : float; reads : list decoded }.

(** What [VideoFileClip] offers: whether the clip has an audio track. *)
Record clip : Type := { has_audio : bool }.

(** ** Effects *)

Module Eff.

Inductive level : Type := INFO | WARNING | ERROR.

(** The values interpolated in a log message. *)
Inductive logarg : Type :=
| AInt (z : Z)
| AStr (s : string)
| AExn (e : exn).

(** The calls the code makes to its collaborators. *)
Inductive event : Type :=
| Log (lvl : level) (fmt : string) (args : list logarg)
| CapRelease (path : string)
| ClipClose (path : string)
| WriteAudiofile (path : string)
| Transcribe (path : string)
| OsRemove (path : string)
| ModelEncode (batch : nat)
| GetCollections
| CreateCollection (name : string) (size : Z)
| Upsert (name : string) (points : list PointStruct)
| QueryPoints (name : string) (query : list float) (limit : Z).

(** The state the code runs in: the paths that exist on disk, the
    source of random identifiers with the number drawn so far, and the
    calls made so far, oldest first. *)
Record world : Type :=
  { files : gset string;
    entropy : nat -> string;
    drawn : nat;
    trace : list event }.

Definition M (A : Type) : Type := world -> world * outcome A.

Definition ret {A} (a : A) : M A := fun w => (w, Ret a).

Definition bind {A B} (m : M A) (k : A -> M B) : M B :=
  fun w =>
    match m w with
    | (w', Ret a) => k a w'
    | (w', Raise e) => (w', Raise e)
    end.

Definition raise {A} (e : exn) : M A := fun w => (w, Raise e).

(** A call whose result the collaborator decides. *)
Definition lift {A} (o : outcome A) : M A := fun w => (w, o).

(** [try: m] with the exception, if any, handed over as a value. *)
Definition attempt {A} (m : M A) : M (outcome A) :=
  fun w => match m w with (w', o) => (w', Ret o) end.

(** [try: m  except Exception as e: h e]. *)
Definition try_except {A} (m : M A) (h : exn -> M A) : M A :=
  fun w =>
    match m w with
    | (w', Ret a) => (w', Ret a)
    | (w', Raise e) => h e w'
    end.

Definition emit (ev : event) : M unit :=
  fun w =>
    ({| files := files w; entropy := entropy w; drawn := drawn w;
        trace := trace w ++ [ev] |}, Ret tt).

Definition log (lvl : level) (fmt : string) (args : list logarg) : M unit :=
  emit (Log lvl fmt args).

(** [os.path.exists]. *)
Definition os_path_exists (path : string) : M bool :=
  fun w => (w, Ret (bool_decide (path ∈ files w))).

Definition create_file (path : string) : M unit :=
  fun w =>
    ({| files := {[path]} ∪ files w; entropy := entropy w;
        drawn := drawn w; trace := trace w |}, Ret tt).

Definition delete_file (path : string) : M unit :=
  fun w =>
    ({| files := files w ∖ {[path]}; entropy := entropy w;
        drawn := drawn w; trace := trace w |}, Ret tt).

(** [str(uuid.uuid4())]. *)
Definition uuid4 : M string :=
  fun w =>
    ({| files := files w; entropy := entropy w; drawn := S (drawn w);
        trace := trace w |}, Ret (entropy w (drawn w))).

(** The events a computation added to the trace. *)
Definition added (w w' : world) : list event :=
  drop (length (trace w)) (trace w').

End Eff.
Export Eff.

Declare Scope eff_scope.
Delimit Scope eff_scope with eff.
Notation "'let*' x ':=' m 'in' k" := (bind m (fun x => k))
  (at level 100, x name, m at next level, right associativity) : eff_scope.
Notation "m ';;' k" := (bind m (fun _ => k))
  (at level 100, right associativity) : eff_scope.
Local Open Scope eff_scope.

(** ** [src/processor.py] *)

Module processor.

(** The operating system and the codec libraries, as far as the
    processor calls them.  [mkstemp_name] is the directory and random
    part of the name that [tempfile.mkstemp] picks; the suffix is
    appended to it. *)
Record host : Type :=
  { cv2_VideoCapture : string -> capture;
    moviepy_VideoFileClip : string -> outcome clip;
    mkstemp_name : outcome string;
    write_audiofile_fault : string -> option exn;
    os_remove_fails : string -> bool }.

(** The result of [whisper_model.transcribe]: a dictionary that may
    hold the key [segments]. *)
Record transcription : Type := { segments : option (list Segment) }.

(** [VideoProcessor]: the loaded Whisper model. *)
Record VideoProcessor : Type :=
  { whisper_model : string -> outcome transcription }.

Section WithHost.

Variable os : host.
Variable self : VideoProcessor.

(** [int(fps * interval)]. *)
Definition frame_interval (fps : float) (interval : Z) : outcome Z :=
  match float_mul_int fps interval with
  | Ret x => int_of_float x
  | Raise e => Raise e
  end.

(** The frame appended for a sampled read. *)
Definition frame_of (d : decoded) : Frame :=
  {| image := fromarray (cvtColor_BGR2RGB (bgr d));
     timestamp := PrimFloat.div (pos_msec d) 1000%float |}.

(** The [while True] loop over [cap.read()].  It yields the list
    [frames] as it stands when the loop is left, and the exception
    that left it, if any: [current_frame % frame_interval] raises
    [ZeroDivisionError] for a zero stride. *)
Fixpoint read_loop (frame_interval : Z) (rest : list decoded)
    (current_frame : Z) (frames : list Frame) : list Frame * option exn :=
  match rest with
  | [] => (frames, None)
  | d :: rest' =>
      if (frame_interval =? 0)%Z then (frames, Some ZeroDivisionError)
      else if (current_frame mod frame_interval =? 0)%Z
      then read_loop frame_interval rest' (current_frame + 1)%Z
                     (frames ++ [frame_of d])
      else read_loop frame_interval rest' (current_frame + 1)%Z frames
  end.

Definition extract_frames (video_path : string) (interval : Z)
    : M (list Frame) :=
  let* present := os_path_exists video_path in
  if negb present then raise FileNotFoundError
  else
    let cap := cv2_VideoCapture os video_path in
    if negb (isOpened cap) then
      log ERROR "Could not open video file: {}" [AStr video_path];;
      ret []
    else
      let fps := CAP_PROP_FPS cap in
      if PrimFloat.eqb fps 0%float then
        log ERROR "Error: Video FPS is 0. File might be corrupt." [];;
        emit (CapRelease video_path);;
        ret []
      else
        let '(frames, fault) :=
          match frame_interval fps interval with
          | Raise e => ([], Some e)
          | Ret stride => read_loop stride (reads cap) 0%Z []
          end in
        match fault with
         | Some e => log ERROR "Error extracting frames: {}" [AExn e]
         | None => ret tt
         end;;
        emit (CapRelease video_path);;
        log INFO "Extracted {} frames from {}"
            [AInt (Z.of_nat (length frames)); AStr video_path];;
        ret frames.

(** [os.remove]. *)
Definition os_remove (path : string) : M unit :=
  emit (OsRemove path);;
  let* present := os_path_exists path in
  if negb present then raise FileNotFoundError
  else if os_remove_fails os path then raise OSError
  else delete_file path.

(** [tempfile.mkstemp(suffix=...)] followed by [os.close(fd)]. *)
Definition mkstemp (suffix : string) : M string :=
  let* name := lift (mkstemp_name os) in
  create_file (name +:+ suffix);;
  ret (name +:+ suffix).

Definition write_audiofile (path : string) : M unit :=
  emit (WriteAudiofile path);;
  match write_audiofile_fault os path with
  | Some e => raise e
  | None => create_file path
  end.

Definition transcribe (path : string) : M transcription :=
  emit (Transcribe path);;
  lift (whisper_model self path).

(** The [except] clause of [extract_audio_segments].  None of the
    exception classes here has a [message] attribute. *)
Definition log_audio_error (e : exn) : M unit :=
  log ERROR "Error extracting/transcribing audio: {}" [AExn e].

(** The [finally] clause of [extract_audio_segments]. *)
Definition cleanup (temp_audio_path : option string) : M unit :=
  match temp_audio_path with
  | None => ret tt
  | Some path =>
      if truthy (PStr path) then
        let* present := os_path_exists path in
        if present then
          try_except (os_remove path)
            (fun e => if is_OSError e then ret tt else raise e)
        else ret tt
      else ret tt
  end.

(** The dictionary appended for a segment of the transcription. *)
Definition trimmed (segment : Segment) : Segment :=
  {| start := start segment;
     end_ := end_ segment;
     text := strip (text segment) |}.

(** The [try] block from [write_audiofile] on, where
    [temp_audio_path] is set. *)
Definition transcribe_track (video_path temp_audio_path : string)
    : M (list Segment) :=
  write_audiofile temp_audio_path;;
  emit (ClipClose video_path);;
  let* result := transcribe temp_audio_path in
  ret (map trimmed (default [] (segments result))).

(** The [try] statement is unfolded at the points where it can be
    left; each exit runs the [finally] clause with the value
    [temp_audio_path] has there. *)
Definition extract_audio_segments (video_path : string)
    : M (list Segment) :=
  let finish (segments_data : list Segment) : M (list Segment) :=
    log INFO "Extracted {} audio segments from {}"
        [AInt (Z.of_nat (length segments_data)); AStr video_path];;
    ret segments_data in
  let* present := os_path_exists video_path in
  if negb present then raise FileNotFoundError
  else
    let* video := attempt (lift (moviepy_VideoFileClip os video_path)) in
    match video with
    | Raise e => log_audio_error e;; cleanup None;; finish []
    | Ret video =>
        if negb (has_audio video) then
          log WARNING "No audio track found in {}" [AStr video_path];;
          emit (ClipClose video_path);;
          cleanup None;;
          ret []
        else
          let* made := attempt (mkstemp ".mp3") in
          match made with
          | Raise e => log_audio_error e;; cleanup None;; finish []
          | Ret temp_audio_path =>
              let* result :=
                attempt (transcribe_track video_path temp_audio_path) in
              match result with
              | Raise e =>
                  log_audio_error e;;
                  cleanup (Some temp_audio_path);;
                  finish []
              | Ret segments_data =>
                  cleanup (Some temp_audio_path);;
                  finish segments_data
              end
          end
    end.

End WithHost.

End processor.
Export processor.

(** ** [src/embedding.py] *)

Module embedding.

(** What [SentenceTransformer.encode] is called on. *)
Inductive batch : Type :=
| Images (images : list Image)
| Texts (text_list : list string).

Definition batch_length (b : batch) : nat :=
  match b with
  | Images l => length l
  | Texts l => length l
  end.

(** [EmbeddingEngine]: the loaded CLIP model.  Its [encode] yields an
    array with one row per input, or raises. *)
Record EmbeddingEngine : Type :=
  { model_encode : batch -> outcome (list (list float)) }.

(** [self.model.encode(..., batch_size=32, normalize_embeddings=True)]
    followed by [.tolist()]. *)
Definition encode (self : EmbeddingEngine) (b : batch) : M (list (list float)) :=
  emit (ModelEncode (batch_length b));;
  lift (model_encode self b).

Definition encode_images (self : EmbeddingEngine) (images : list Image)
    : M (list (list float)) :=
  match images with
  | [] => ret []
  | _ :: _ =>
      try_except (encode self (Images images))
        (fun e => log ERROR "Error encoding images: {}" [AExn e];; ret [])
  end.

Definition encode_text (self : EmbeddingEngine) (text_list : list string)
    : M (list (list float)) :=
  match text_list with
  | [] => ret []
  | _ :: _ =>
      try_except (encode self (Texts text_list))
        (fun e => log ERROR "Error encoding text: {}" [AExn e];; ret [])
  end.

End embedding.
Export embedding.

(** ** [src/vector_store.py] *)

Module vector_store.

(** The [qdrant_client] library, as far as the store uses it: the calls
    it makes to the client and, with [refuses_vector], the validation
    of the points it constructs for it (see [new_PointStruct]). *)
Record QdrantClient : Type :=
  { get_collections : outcome (list string);
    create_collection_fault : string -> option exn;
    upsert_fault : string -> list PointStruct -> option exn;
    query_points : string -> list float -> Z -> outcome (list ScoredPoint);
    refuses_vector : pyval -> bool }.

Record VectorStore : Type :=
  { collection_name : string;
    embedding_engine : option EmbeddingEngine;
    client : QdrantClient }.

Definition _ensure_collection_exists (self : VectorStore) : M unit :=
  try_except
    (emit GetCollections;;
     let* collections := lift (get_collections (client self)) in
     let exists_ :=
       existsb (fun name => String.eqb name (collection_name self))
               collections in
     if negb exists_ then
       log INFO "Creating collection '{}'..." [AStr (collection_name self)];;
       emit (CreateCollection (collection_name self) 512);;
       match create_collection_fault (client self) (collection_name self) with
        | Some e => raise e
        | None => ret tt
        end;;
       log INFO "Collection created." []
     else
       log INFO "Collection '{}' already exists."
           [AStr (collection_name self)])
    (fun e => log ERROR "Error checking/creating collection: {}" [AExn e]).

(** [VectorStore.__init__].  An argument left out is [None] here and
    takes the default of the signature; [connect] is the constructor
    of the client, for a local path or for a server. *)
Definition __init__
    (connect : string + string * Z -> outcome QdrantClient)
    (collection_name : option string)
    (embedding_engine : option EmbeddingEngine)
    (host : option string) (port : option Z) (path : option string)
    : M VectorStore :=
  let collection_name := default "neuro_stream" collection_name in
  let host := default "localhost" host in
  let port := default 6333%Z port in
  try_except
    (let* client :=
       match path with
       | Some p =>
           if truthy (PStr p) then
             let* c := lift (connect (inl p)) in
             log INFO "Connected to Qdrant (Local) at {}" [AStr p];;
             ret c
           else
             let* c := lift (connect (inr (host, port))) in
             log INFO "Connected to Qdrant (Server) at {}:{}"
                 [AStr host; AInt port];;
             ret c
       | None =>
           let* c := lift (connect (inr (host, port))) in
           log INFO "Connected to Qdrant (Server) at {}:{}"
               [AStr host; AInt port];;
           ret c
       end in
     let self := {| collection_name := collection_name;
                    embedding_engine := embedding_engine;
                    client := client |} in
     _ensure_collection_exists self;;
     ret self)
    (fun e => log ERROR "Failed to connect to Qdrant: {}" [AExn e];; raise e).

(** The payload of a visual point: the three keys of the literal, then
    [**metadata]. *)
Definition visual_payload (video_id : string) (timestamp : pyval)
    (metadata : gmap string pyval) : gmap string pyval :=
  dict_spread
    (<["video_id" := PStr video_id]>
       (<["type" := PStr "visual"]>
          (<["timestamp" := timestamp]> ∅)))
    metadata.

(** The payload of an audio point. *)
Definition audio_payload (video_id : string) (item : gmap string pyval)
    (metadata : gmap string pyval) : gmap string pyval :=
  dict_spread
    (<["video_id" := PStr video_id]>
       (<["type" := PStr "audio"]>
          (<["start" := dict_get item "start"]>
             (<["end" := dict_get item "end"]>
                (<["text" := dict_get item "text"]>
                   (<["timestamp" := dict_get item "start"]> ∅))))))
    metadata.

(** [PointStruct(id=..., vector=..., payload=...)].  The model validates
    its fields when it is constructed and raises [ValidationError],
    which is a [ValueError], when one of them does not fit its type.
    An identifier that is a string and a payload that is a dictionary
    with string keys always pass.  As vector a list of floats passes:
    that is what the pipeline hands over, the rows of [tolist()].
    Which other values pass (a list of lists of floats, a list with
    integers, ...) depends on the version of the library and is left
    to it: [refuses_vector]. *)
Definition is_float (v : pyval) : bool :=
  match v with
  | PFloat _ => true
  | _ => false
  end.

Definition float_vector (v : pyval) : bool :=
  match v with
  | PList l => forallb is_float l
  | _ => false
  end.

Definition passes (c : QdrantClient) (vector : pyval) : bool :=
  float_vector vector || negb (refuses_vector c vector).

Definition new_PointStruct (c : QdrantClient) (id : string) (vector : pyval)
    (payload : gmap string pyval) : M PointStruct :=
  if passes c vector
  then ret {| id := id; vector := vector; payload := payload |}
  else raise ValueError.

(** The first loop of [index_video], over [visual_vectors].  The
    arguments of [PointStruct] are evaluated in order, so the identifier
    is drawn before the vector is validated. *)
Fixpoint visual_points (c : QdrantClient) (video_id : string)
    (metadata : gmap string pyval)
    (visual_vectors : list (gmap string pyval)) (points : list PointStruct)
    : M (list PointStruct) :=
  match visual_vectors with
  | [] => ret points
  | item :: rest =>
      let vector := dict_get item "vector" in
      let timestamp := dict_get item "timestamp" in
      if truthy vector then
        let payload := visual_payload video_id timestamp metadata in
        let* id := uuid4 in
        let* point := new_PointStruct c id vector payload in
        visual_points c video_id metadata rest (points ++ [point])
      else visual_points c video_id metadata rest points
  end.

(** The second loop, over [audio_vectors]. *)
Fixpoint audio_points (c : QdrantClient) (video_id : string)
    (metadata : gmap string pyval)
    (audio_vectors : list (gmap string pyval)) (points : list PointStruct)
    : M (list PointStruct) :=
  match audio_vectors with
  | [] => ret points
  | item :: rest =>
      let vector := dict_get item "vector" in
      if truthy vector then
        let payload := audio_payload video_id item metadata in
        let* id := uuid4 in
        let* point := new_PointStruct c id vector payload in
        audio_points c video_id metadata rest (points ++ [point])
      else audio_points c video_id metadata rest points
  end.

(** [self.client.upsert(collection_name=..., points=...)]. *)
Definition upsert (self : VectorStore) (points : list PointStruct) : M unit :=
  emit (Upsert (collection_name self) points);;
  match upsert_fault (client self) (collection_name self) points with
  | Some e => raise e
  | None => ret tt
  end.

Definition index_video (self : VectorStore) (video_id : string)
    (visual_vectors audio_vectors : list (gmap string pyval))
    (metadata : gmap string pyval) : M unit :=
  let* points :=
    visual_points (client self) video_id metadata visual_vectors [] in
  let* points :=
    audio_points (client self) video_id metadata audio_vectors points in
  if nonempty points then
    try_except
      (upsert self points;;
       log INFO "Indexed {} points for video {}"
           [AInt (Z.of_nat (length points)); AStr video_id])
      (fun e => log ERROR "Failed to upsert points: {}" [AExn e])
  else log WARNING "No valid points to index." [].

(** One entry of the result list of [search]: the dictionary built
    from the score and the payload of a hit. *)
Definition result_dict (hit_score : float) (payload : gmap string pyval)
    : gmap string pyval :=
  <["score" := PFloat hit_score]>
    (<["timestamp" := dict_get payload "timestamp"]>
       (<["video_id" := dict_get payload "video_id"]>
          (<["type" := dict_get payload "type"]>
             (<["text" := dict_get payload "text"]> ∅)))).

(** [hit.payload.get] raises [AttributeError] on a hit without payload. *)
Definition format_hit (hit : ScoredPoint) : M (gmap string pyval) :=
  match hit_payload hit with
  | None => raise AttributeError
  | Some payload => ret (result_dict (score hit) payload)
  end.

(** The loop that formats the hits. *)
Fixpoint format_results (search_result : list ScoredPoint)
    (results : list (gmap string pyval)) : M (list (gmap string pyval)) :=
  match search_result with
  | [] => ret results
  | hit :: rest =>
      let* r := format_hit hit in
      format_results rest (results ++ [r])
  end.

Definition search (self : VectorStore) (query_text : string) (top_k : Z)
    : M (list (gmap string pyval)) :=
  match embedding_engine self with
  | None => raise ValueError
  | Some engine =>
      try_except
        (let* query_vector_batch := encode_text engine [query_text] in
         match query_vector_batch with
         | [] => ret []
         | query_vector :: _ =>
             emit (QueryPoints (collection_name self) query_vector top_k);;
             let* search_result :=
               lift (query_points (client self) (collection_name self)
                                  query_vector top_k) in
             format_results search_result []
         end)
        (fun e => log ERROR "Search failed: {}" [AExn e];; ret [])
  end.

End vector_store.
Export vector_store.

(** ** [src/api.py] *)

Module api.

(** [app_state] once [lifespan] has loaded the models. *)
Record app_state : Type :=
  { state_processor : VideoProcessor;
    state_embedding_engine : EmbeddingEngine;
    state_vector_store : VectorStore }.

(** [os.path.basename]: what follows the last slash. *)
Fixpoint has_slash (p : string) : bool :=
  match p with
  | EmptyString => false
  | String c rest => Ascii.eqb c "/" || has_slash rest
  end.

Fixpoint basename (p : string) : string :=
  match p with
  | EmptyString => EmptyString
  | String c rest =>
      if has_slash rest then basename rest
      else if Ascii.eqb c "/" then rest else p
  end.

Definition floats (v : list float) : pyval := PList (map PFloat v).

(** The dictionaries [process_video_task] appends. *)
Definition visual_entry (v : list float) (frame : Frame) : gmap string pyval :=
  <["vector" := floats v]> (<["timestamp" := PFloat (timestamp frame)]> ∅).

Definition audio_entry (v : list float) (segment : Segment)
    : gmap string pyval :=
  <["vector" := floats v]>
    (<["start" := PFloat (start segment)]>
       (<["end" := PFloat (end_ segment)]>
          (<["text" := PStr (text segment)]> ∅))).

(** [for i, x in enumerate(xs): data.append(entry(embeddings[i], x))];
    the subscript raises [IndexError] past the end of the list. *)
Fixpoint pair_up {A} (entry : list float -> A -> gmap string pyval)
    (embeddings : list (list float)) (i : nat) (xs : list A)
    (data : list (gmap string pyval)) : M (list (gmap string pyval)) :=
  match xs with
  | [] => ret data
  | x :: rest =>
      match embeddings !! i with
      | None => raise IndexError
      | Some v => pair_up entry embeddings (S i) rest (data ++ [entry v x])
      end
  end.

Section WithHost.

Variable os : host.
Variable state : app_state.

(** The body of the [try] statement of [process_video_task]. *)
Definition process_video (file_path video_id : string) : M unit :=
  let processor := state_processor state in
  let embedding_engine := state_embedding_engine state in
  let vector_store := state_vector_store state in
  log INFO "Starting processing for {}..." [AStr video_id];;
  let* frames := extract_frames os file_path 2 in
  let* audio_segments := extract_audio_segments os processor file_path in
  let* visual_vectors_data :=
    if nonempty frames then
      let pil_images := map image frames in
      let* visual_embeddings := encode_images embedding_engine pil_images in
      pair_up visual_entry visual_embeddings 0 frames []
    else ret [] in
  let* audio_vectors_data :=
    if nonempty audio_segments then
      let texts := map text audio_segments in
      let* audio_embeddings := encode_text embedding_engine texts in
      pair_up audio_entry audio_embeddings 0 audio_segments []
    else ret [] in
  index_video vector_store video_id visual_vectors_data audio_vectors_data
    (<["filename" := PStr (basename file_path)]> ∅);;
  log INFO "Completed processing for {}" [AStr video_id];;
  let* present := os_path_exists file_path in
  if present then os_remove os file_path else ret tt.

Definition process_video_task (file_path video_id : string) : M unit :=
  try_except (process_video file_path video_id)
    (fun e =>
       log ERROR "Error processing video {}: {}" [AStr video_id; AExn e]).

End WithHost.

End api.
Export api.

(** * The vocabulary of the statements

    Worlds described by what a call added to them, the points and
    payloads [index_video] builds, the outcomes of the query path and of
    the audio extraction, and the sampling of frames. *)

(** The world after [n] more identifiers were drawn. *)
Definition draw (n : nat) (w : world) : world :=
  {| files := files w; entropy := entropy w; drawn := n + drawn w;
     trace := trace w |}.

(** The world after the events [evs] were added to the trace. *)
Definition record (evs : list event) (w : world) : world :=
  {| files := files w; entropy := entropy w; drawn := drawn w;
     trace := trace w ++ evs |}.

(** An item without a usable vector: the loops skip it. *)
Definition no_vector (item : gmap string pyval) : Prop :=
  truthy (dict_get item "vector") = false.

(** An item with a usable vector. *)
Definition has_vector (item : gmap string pyval) : Prop :=
  truthy (dict_get item "vector") = true.

#[local] Instance has_vector_dec (item : gmap string pyval) :
  Decision (has_vector item).
Proof. unfold has_vector. apply _. Defined.

(** An item the loops of a store get past: its vector is skipped, or
    [PointStruct] takes it. *)
Definition accepted (self : VectorStore) (item : gmap string pyval) : bool :=
  let vector := dict_get item "vector" in
  negb (truthy vector) || passes (client self) vector.

(** Items that all get past the loops. *)
Definition valid_vectors (self : VectorStore)
    (items : list (gmap string pyval)) : bool :=
  forallb (accepted self) items.

(** The points the first loop builds when the [n]-th identifier is the
    next to be drawn. *)
Definition visual_built (video_id : string) (metadata : gmap string pyval)
    (ent : nat → string) (n : nat) (items : list (gmap string pyval))
    : list PointStruct :=
  imap (λ k item,
          {| id := ent (n + k);
             vector := dict_get item "vector";
             payload := visual_payload video_id (dict_get item "timestamp")
                                       metadata |})
       (filter has_vector items).

(** The points the second loop builds. *)
Definition audio_built (video_id : string) (metadata : gmap string pyval)
    (ent : nat → string) (n : nat) (items : list (gmap string pyval))
    : list PointStruct :=
  imap (λ k item,
          {| id := ent (n + k);
             vector := dict_get item "vector";
             payload := audio_payload video_id item metadata |})
       (filter has_vector items).

(** The whole batch: the visual points, then the audio points. *)
Definition built_points (video_id : string) (metadata : gmap string pyval)
    (ent : nat → string) (n : nat)
    (visual_vectors audio_vectors : list (gmap string pyval))
    : list PointStruct :=
  visual_built video_id metadata ent n visual_vectors
  ++ audio_built video_id metadata ent
       (n + length (filter has_vector visual_vectors)) audio_vectors.

(** The calls [index_video] makes once it has built [points]. *)
Definition index_events (self : VectorStore) (video_id : string)
    (points : list PointStruct) : list event :=
  match points with
  | [] => [Log WARNING "No valid points to index." []]
  | _ :: _ =>
      [Upsert (collection_name self) points;
       match upsert_fault (client self) (collection_name self) points with
       | Some e => Log ERROR "Failed to upsert points: {}" [AExn e]
       | None =>
           Log INFO "Indexed {} points for video {}"
               [AInt (Z.of_nat (length points)); AStr video_id]
       end]
  end.

(** The keys every payload has.  The modality is stored under the key
    [type]. *)
Definition required_keys (pl : gmap string pyval) : Prop :=
  is_Some (pl !! "video_id") ∧ is_Some (pl !! "type")
  ∧ is_Some (pl !! "timestamp").

Definition visual_shape (pl : gmap string pyval) : Prop :=
  pl !! "type" = Some (PStr "visual") ∧ pl !! "text" = None.

Definition audio_shape (pl : gmap string pyval) : Prop :=
  pl !! "type" = Some (PStr "audio")
  ∧ is_Some (pl !! "start") ∧ is_Some (pl !! "end") ∧ is_Some (pl !! "text")
  ∧ pl !! "timestamp" = pl !! "start".

(** Metadata that leaves alone the keys the payload literals set and the
    claim reads. *)
Definition plain_metadata (metadata : gmap string pyval) : Prop :=
  metadata !! "type" = None ∧ metadata !! "timestamp" = None
  ∧ metadata !! "start" = None ∧ metadata !! "text" = None.

(** The dictionary [search] builds for a hit; none for a hit without
    payload. *)
Definition formatted (hit : ScoredPoint) : option (gmap string pyval) :=
  result_dict (score hit) <$> hit_payload hit.

(** What [search] does with an engine: the events it adds and the list
    it returns. *)
Definition search_outcome (self : VectorStore) (engine : EmbeddingEngine)
    (query_text : string) (top_k : Z)
    : list event * list (gmap string pyval) :=
  match model_encode engine (Texts [query_text]) with
  | Raise e =>
      ([ModelEncode 1; Log ERROR "Error encoding text: {}" [AExn e]], [])
  | Ret [] => ([ModelEncode 1], [])
  | Ret (query_vector :: _) =>
      let asked :=
        [ModelEncode 1; QueryPoints (collection_name self) query_vector top_k] in
      match query_points (client self) (collection_name self)
                         query_vector top_k with
      | Raise e => (asked ++ [Log ERROR "Search failed: {}" [AExn e]], [])
      | Ret hits =>
          match mapM formatted hits with
          | None =>
              (asked ++ [Log ERROR "Search failed: {}" [AExn AttributeError]],
               [])
          | Some results => (asked, results)
          end
      end
  end.

(** An internal failure of [search]: the query has no embedding (the
    model failed or gave nothing), the index raised, or a hit has no
    payload. *)
Definition search_fails (self : VectorStore) (engine : EmbeddingEngine)
    (query_text : string) (top_k : Z) : Prop :=
  match model_encode engine (Texts [query_text]) with
  | Raise _ => True
  | Ret [] => True
  | Ret (query_vector :: _) =>
      match query_points (client self) (collection_name self)
                         query_vector top_k with
      | Raise _ => True
      | Ret hits => mapM formatted hits = None
      end
  end.

(** What [extract_audio_segments] logs and returns once the temporary
    file [temp] exists. *)
Definition audio_outcome (os : host) (self : VideoProcessor)
    (video_path temp : string) : list event * list Segment :=
  let failed e :=
    [Log ERROR "Error extracting/transcribing audio: {}" [AExn e];
     OsRemove temp;
     Log INFO "Extracted {} audio segments from {}"
         [AInt 0; AStr video_path]] in
  match write_audiofile_fault os temp with
  | Some e => (WriteAudiofile temp :: failed e, [])
  | None =>
      let transcribing :=
        [WriteAudiofile temp; ClipClose video_path; Transcribe temp] in
      match whisper_model self temp with
      | Raise e => (transcribing ++ failed e, [])
      | Ret result =>
          let segments_data := map trimmed (default [] (segments result)) in
          (transcribing
             ++ [OsRemove temp;
                 Log INFO "Extracted {} audio segments from {}"
                     [AInt (Z.of_nat (length segments_data));
                      AStr video_path]],
           segments_data)
      end
  end.

(** The frame sampled at index [i], if [i] is a multiple of the stride. *)
Definition pick (stride : Z) (i : nat) (d : decoded) : option Frame :=
  if (Z.of_nat i mod stride =? 0)%Z then Some (frame_of d) else None.

(** The decoded frames whose index is a multiple of the stride, in
    order, each as the frame appended for it. *)
Definition sampled (stride : Z) (reads : list decoded) : list Frame :=
  omap Datatypes.id (imap (pick stride) reads).

(** [round(x)]: the nearest integer, a tie going to the even one. *)
Definition round_half_even (x : float) : outcome Z :=
  match Prim2SF x with
  | S754_zero _ => Ret 0%Z
  | S754_infinity _ => Raise OverflowError
  | S754_nan => Raise ValueError
  | S754_finite s m e =>
      let v := match e with
               | Z0 => Zpos m
               | Zpos p => (Zpos m * 2 ^ Zpos p)%Z
               | Zneg p =>
                   let q := (Zpos m / 2 ^ Zpos p)%Z in
                   let r := (Zpos m mod 2 ^ Zpos p)%Z in
                   match (2 * r ?= 2 ^ Zpos p)%Z with
                   | Lt => q
                   | Gt => (q + 1)%Z
                   | Eq => if Z.even q then q else (q + 1)%Z
                   end
               end in
      Ret (if s then (- v)%Z else v)
  end.

(** The stride in the words of the specification:
    [round(frame_rate * interval)]. *)
Definition spec_frame_interval (fps : float) (interval : Z) : outcome Z :=
  match float_mul_int fps interval with
  | Ret x => round_half_even x
  | Raise e => Raise e
  end.


(** * A concrete scenario

    A host with one uploaded video, a transcriber, embedding models, an
    index client and a store, used to run the code on explicit inputs. *)

Module Scenario.

Definition digit (n : nat) : string :=
  String (ascii_of_nat (48 + n mod 10)) EmptyString.

Definition demo_world : world :=
  {| files := {["upload.mp4"]};
     entropy := λ n, "point-" +:+ digit n;
     drawn := 0;
     trace := [] |}.

Definition demo_frame : Frame :=
  {| image := fromarray [[(255, 0, 0)%Z]]; timestamp := 0%float |}.

Definition demo_segment : Segment :=
  {| start := 0%float; end_ := 1.5%float; text := "hello" |}.

(** A model that embeds every input as the same unit vector. *)
Definition demo_engine : EmbeddingEngine :=
  {| model_encode := λ b,
       Ret (repeat [1%float; 0%float] (batch_length b)) |}.

(** A model that fails on images and embeds text. *)
Definition text_only_engine : EmbeddingEngine :=
  {| model_encode := λ b,
       match b with
       | Images _ => Raise RuntimeError
       | Texts l => Ret (repeat [1%float; 0%float] (length l))
       end |}.

Definition demo_hits : list ScoredPoint :=
  [{| score := 0.5%float;
      hit_payload :=
        Some (visual_payload "vid" (PFloat 0)
                (<["filename" := PStr "upload.mp4"]> ∅)) |};
   {| score := 0.25%float;
      hit_payload :=
        Some (audio_payload "vid" (audio_entry [1%float; 0%float] demo_segment)
                (<["filename" := PStr "upload.mp4"]> ∅)) |}].

(** The library of this client takes no vector but a list of floats. *)
Definition demo_client : QdrantClient :=
  {| get_collections := Ret ["neuro_stream"];
     create_collection_fault := λ _, None;
     upsert_fault := λ _ _, None;
     query_points := λ _ _ _, Ret demo_hits;
     refuses_vector := λ _, true |}.

Definition demo_store : VectorStore :=
  {| collection_name := "neuro_stream";
     embedding_engine := Some demo_engine;
     client := demo_client |}.

(** The store as [VectorStore()] constructs it: no engine is passed. *)
Definition booted : world * outcome VectorStore :=
  __init__ (λ _, Ret demo_client) None None None None
           (Some "./qdrant_local_store") demo_world.

(** The results for the two hits of the scenario. *)
Definition demo_results : list (gmap string pyval) := omap formatted demo_hits.

(** The [text] of the [i]-th result. *)
Definition text_of (results : list (gmap string pyval)) (i : nat)
    : option pyval :=
  results !! i ≫= lookup "text".

(** Whisper hears one phrase and one stretch of silence. *)
Definition demo_transcript : list Segment :=
  [{| start := 0%float; end_ := 1.5%float; text := "  hello " |};
   {| start := 1.5%float; end_ := 3%float; text := "   " |}].

Definition demo_processor : VideoProcessor :=
  {| whisper_model := λ _, Ret {| segments := Some demo_transcript |} |}.

Definition demo_capture : capture :=
  {| isOpened := true;
     CAP_PROP_FPS := 30%float;
     reads := [{| bgr := [[(0, 0, 255)%Z]]; pos_msec := 0%float |}] |}.

(** A host on which every call succeeds, around a given capture. *)
Definition host_with (cap : capture) : host :=
  {| cv2_VideoCapture := λ _, cap;
     moviepy_VideoFileClip := λ _, Ret {| has_audio := true |};
     mkstemp_name := Ret "/tmp/tmpk3v9";
     write_audiofile_fault := λ _, None;
     os_remove_fails := λ _, false |}.

Definition demo_host : host := host_with demo_capture.

(** The same host, on which the temporary file cannot be removed. *)
Definition locked_host : host :=
  {| cv2_VideoCapture := λ _, demo_capture;
     moviepy_VideoFileClip := λ _, Ret {| has_audio := true |};
     mkstemp_name := Ret "/tmp/tmpk3v9";
     write_audiofile_fault := λ _, None;
     os_remove_fails := λ _, true |}.

(** The float nearest to an integer. *)
Definition float_of (z : Z) : float :=
  SF2Prim (binary_normalize prec emax z 0 false).

(** A capture at the NTSC rate with sixty frames, the position counter
    at the time of each frame. *)
Definition ntsc_capture : capture :=
  {| isOpened := true;
     CAP_PROP_FPS := 29.97%float;
     reads :=
       map (λ i, {| bgr := [[(0, 0, Z.of_nat i)%Z]];
                    pos_msec :=
                      PrimFloat.div (float_of (Z.of_nat i * 1000))
                                    29.97%float |})
           (seq 0 60) |}.


Definition nan_capture : capture :=
  {| isOpened := true; CAP_PROP_FPS := nan; reads := reads ntsc_capture |}.

(** The application state with a model that fails on images. *)
Definition failing_state : app_state :=
  {| state_processor := demo_processor;
     state_embedding_engine := text_only_engine;
     state_vector_store :=
       {| collection_name := "neuro_stream";
          embedding_engine := Some text_only_engine;
          client := demo_client |} |}.

(** The application state with a model that embeds both. *)
Definition working_state : app_state :=
  {| state_processor := demo_processor;
     state_embedding_engine := demo_engine;
     state_vector_store := demo_store |}.

Definition is_upsert (ev : event) : bool :=
  match ev with
  | Upsert _ _ => true
  | _ => false
  end.


(** A store whose index answers every query with the hits given. *)
Definition store_returning (hits : list ScoredPoint) : VectorStore :=
  {| collection_name := "neuro_stream";
     embedding_engine := Some demo_engine;
     client :=
       {| get_collections := Ret ["neuro_stream"];
          create_collection_fault := λ _, None;
          upsert_fault := λ _ _, None;
          query_points := λ _ _ _, Ret hits;
          refuses_vector := λ _, true |} |}.

End Scenario.
Import Scenario.

(** * Properties *)

(** ** Worlds and traces *)

(** Unfolds the operations of the monad. *)
Ltac eff_unfold :=
  unfold bind, ret, raise, lift, attempt, try_except, log, emit,
    os_path_exists, create_file, delete_file.

Lemma draw_0 (w : world) : draw 0 w = w.
Proof. by destruct w. Qed.

Lemma record_nil (w : world) : record [] w = w.
Proof. destruct w; unfold record; simpl. by rewrite app_nil_r. Qed.

Lemma record_record (evs evs' : list event) (w : world) :
  record evs' (record evs w) = record (evs ++ evs') w.
Proof. unfold record; simpl. by rewrite app_assoc. Qed.

Lemma added_record (evs : list event) (w : world) :
  added w (record evs w) = evs.
Proof. unfold added, record; simpl. by rewrite drop_app_length. Qed.

Lemma added_record_draw (n : nat) (evs : list event) (w : world) :
  added w (record evs (draw n w)) = evs.
Proof. unfold added, record, draw; simpl. by rewrite drop_app_length. Qed.

Lemma emit_record (ev : event) (w : world) :
  emit ev w = (record [ev] w, Ret tt).
Proof. reflexivity. Qed.

(** ** [str.strip] *)

Lemma lstrip_blank (s : string) : blank s = true → lstrip s = "".
Proof.
  induction s as [|c s IH]; simpl; [done|].
  intros [Hc Hs]%andb_prop. rewrite Hc. by apply IH.
Qed.

Lemma rstrip_blank (s : string) : blank s = true → rstrip s = "".
Proof.
  induction s as [|c s IH]; simpl; [done|].
  intros [Hc Hs]%andb_prop. rewrite (IH Hs). by rewrite Hc.
Qed.

Lemma strip_blank (s : string) : blank s = true → strip s = "".
Proof. intros H. unfold strip. by rewrite lstrip_blank. Qed.

Lemma append_cons (c : ascii) (s t : string) :
  String c s +:+ t = String c (s +:+ t).
Proof. reflexivity. Qed.

Lemma append_empty (t : string) : "" +:+ t = t.
Proof. reflexivity. Qed.

(** What [lstrip] removes is whitespace. *)
Lemma lstrip_split (s : string) :
  ∃ pre, s = pre +:+ lstrip s ∧ blank pre = true.
Proof.
  induction s as [|c s (pre & Hs & Hpre)]; simpl.
  - by exists "".
  - destruct (isspace c) eqn:Hc.
    + exists (String c pre). simpl. rewrite Hc, Hpre. split; [|done].
      rewrite append_cons. congruence.
    + by exists "".
Qed.

(** What [rstrip] removes is whitespace. *)
Lemma rstrip_split (s : string) :
  ∃ post, s = rstrip s +:+ post ∧ blank post = true.
Proof.
  induction s as [|c s (post & Hs & Hpost)]; simpl.
  - by exists "".
  - destruct (rstrip s) as [|c' r] eqn:Hr.
    + destruct (isspace c) eqn:Hc.
      * exists (String c post). simpl. rewrite Hc, Hpost.
        split; [|done]. rewrite append_empty in *. congruence.
      * exists post. split; [|done].
        rewrite append_cons, append_empty in *. congruence.
    + exists post. split; [|done]. rewrite !append_cons in *. congruence.
Qed.

(** The text is the trimmed text between two runs of whitespace. *)
Lemma strip_split (s : string) :
  ∃ pre post, s = pre +:+ strip s +:+ post
              ∧ blank pre = true ∧ blank post = true.
Proof.
  destruct (lstrip_split s) as (pre & Hs & Hpre).
  destruct (rstrip_split (lstrip s)) as (post & Hl & Hpost).
  exists pre, post. unfold strip. by rewrite <- Hl.
Qed.

(** The trimmed text does not begin with whitespace. *)
Lemma lstrip_head (s : string) (c : ascii) (t : string) :
  lstrip s = String c t → isspace c = false.
Proof.
  induction s as [|c' s IH]; simpl; [done|].
  destruct (isspace c') eqn:Hc; [done|]. by intros [= <- _].
Qed.

Lemma rstrip_head (s : string) (c : ascii) (t : string) :
  rstrip s = String c t → ∃ t', s = String c t'.
Proof.
  destruct s as [|c' s]; simpl; [done|].
  destruct (rstrip s); [destruct (isspace c')|]; intros [= <- _]; by eexists.
Qed.

Lemma strip_head (s : string) (c : ascii) (t : string) :
  strip s = String c t → isspace c = false.
Proof.
  unfold strip. intros (t' & H)%rstrip_head. by eapply lstrip_head.
Qed.

(** Nor does it end with whitespace. *)
Lemma rstrip_last (s : string) :
  match rev (list_ascii_of_string (rstrip s)) with
  | [] => True
  | c :: _ => isspace c = false
  end.
Proof.
  induction s as [|c s IH]; simpl; [done|].
  destruct (rstrip s) as [|c' r] eqn:Hr.
  - destruct (isspace c) eqn:Hc; simpl; done.
  - simpl in *. destruct (rev (list_ascii_of_string r) ++ [c']) eqn:Hl.
    + by destruct (rev (list_ascii_of_string r)).
    + simpl. done.
Qed.

Lemma strip_last (s : string) :
  match rev (list_ascii_of_string (strip s)) with
  | [] => True
  | c :: _ => isspace c = false
  end.
Proof. apply rstrip_last. Qed.

(** The trimmed text is empty exactly for a text of whitespace. *)
Lemma strip_empty_iff (s : string) : strip s = "" ↔ blank s = true.
Proof.
  split; [|apply strip_blank].
  intros H. destruct (strip_split s) as (pre & post & Hs & Hpre & Hpost).
  rewrite H in Hs. simpl in Hs. subst s.
  clear H. induction pre as [|c pre IH]; simpl in *; [done|].
  apply andb_prop in Hpre as [-> Hpre]. by apply IH.
Qed.

(** ** Frame extraction *)

Lemma read_loop_run (stride : Z) (rest : list decoded) :
  stride ≠ 0%Z →
  ∀ (k : nat) (frames : list Frame),
    read_loop stride rest (Z.of_nat k) frames
    = (frames ++ omap Datatypes.id (imap (λ i, pick stride (k + i)) rest), None).
Proof.
  intros Hs. apply Z.eqb_neq in Hs.
  induction rest as [|d rest IH]; intros k frames; simpl.
  - by rewrite app_nil_r.
  - rewrite Hs. replace (Z.of_nat k + 1)%Z with (Z.of_nat (S k)) by lia.
    rewrite IH. unfold pick at 2. rewrite Nat.add_0_r.
    assert (imap ((λ i, pick stride (k + i)) ∘ S) rest
            = imap (λ i, pick stride (S k + i)) rest) as ->.
    { apply imap_ext. intros i x _. simpl. f_equal. lia. }
    destruct (Z.of_nat k mod stride =? 0)%Z; simpl; [|done].
    by rewrite <- app_assoc.
Qed.

Lemma read_loop_zero_stride (rest : list decoded) (k : Z)
    (frames : list Frame) :
  read_loop 0 rest k frames
  = (frames, match rest with [] => None | _ :: _ => Some ZeroDivisionError end).
Proof. by destruct rest. Qed.

(** The sampled frames are exactly those at the multiples of the stride. *)
Lemma elem_of_sampled (stride : Z) (reads : list decoded) (f : Frame) :
  f ∈ sampled stride reads
  ↔ ∃ i d, reads !! i = Some d ∧ (Z.of_nat i mod stride = 0)%Z
           ∧ f = {| image := fromarray (cvtColor_BGR2RGB (bgr d));
                    timestamp := PrimFloat.div (pos_msec d) 1000%float |}.
Proof.
  unfold sampled. rewrite list_elem_of_omap. split.
  - intros (o & Hin & Ho). simpl in Ho. subst o.
    apply elem_of_lookup_imap in Hin as (i & d & Hp & Hd).
    unfold pick in Hp. destruct (Z.eqb_spec (Z.of_nat i mod stride) 0);
      [|done].
    injection Hp as ->. by exists i, d.
  - intros (i & d & Hd & Hm & ->). exists (pick stride i d). split.
    + apply elem_of_lookup_imap. by exists i, d.
    + unfold pick. rewrite Hm. reflexivity.
Qed.




Lemma extract_frames_run (os : host) (video_path : string) (interval : Z)
    (w : world) :
  let cap := cv2_VideoCapture os video_path in
  video_path ∈ files w →
  isOpened cap = true →
  PrimFloat.eqb (CAP_PROP_FPS cap) 0%float = false →
  extract_frames os video_path interval w
  = let '(frames, fault) :=
      match frame_interval (CAP_PROP_FPS cap) interval with
      | Raise e => ([], Some e)
      | Ret stride => read_loop stride (reads cap) 0%Z []
      end in
    (record (match fault with
             | Some e => [Log ERROR "Error extracting frames: {}" [AExn e]]
             | None => []
             end
             ++ [CapRelease video_path;
                 Log INFO "Extracted {} frames from {}"
                     [AInt (Z.of_nat (length frames)); AStr video_path]]) w,
     Ret frames).
Proof.
  intros cap Hin Hopen Hfps. subst cap. unfold extract_frames.
  unfold bind at 1, os_path_exists at 1.
  rewrite bool_decide_eq_true_2 by done. simpl.
  rewrite Hopen, Hfps. simpl.
  destruct (match frame_interval _ _ with Raise _ => _ | Ret _ => _ end)
    as [frames [e|]]; eff_unfold; unfold record; simpl;
    by rewrite <- !app_assoc.
Qed.

(** C3, as the code has it.  The stride is [int(fps * interval)]: the
    product with its fraction cut off, not rounded.  When that stride is
    not zero, the frames returned are exactly the decoded frames whose
    index is a multiple of it, in order, each with the picture turned to
    RGB and tagged with the position counter divided by 1000. *)
Theorem extract_frames_samples_every_stride (os : host)
    (video_path : string) (interval stride : Z) (w : world) :
  let cap := cv2_VideoCapture os video_path in
  video_path ∈ files w →
  isOpened cap = true →
  PrimFloat.eqb (CAP_PROP_FPS cap) 0%float = false →
  frame_interval (CAP_PROP_FPS cap) interval = Ret stride →
  stride ≠ 0%Z →
  snd (extract_frames os video_path interval w)
  = Ret (sampled stride (reads cap))
  ∧ added w (fst (extract_frames os video_path interval w))
    = [CapRelease video_path;
       Log INFO "Extracted {} frames from {}"
           [AInt (Z.of_nat (length (sampled stride (reads cap))));
            AStr video_path]]
  ∧ (∀ f, f ∈ sampled stride (reads cap)
          ↔ ∃ i d, reads cap !! i = Some d ∧ (Z.of_nat i mod stride = 0)%Z
                   ∧ f = {| image := fromarray (cvtColor_BGR2RGB (bgr d));
                            timestamp :=
                              PrimFloat.div (pos_msec d) 1000%float |}).
Proof.
  intros cap Hin Hopen Hfps Hstride Hnz.
  rewrite (extract_frames_run os video_path interval w Hin Hopen Hfps).
  fold cap. rewrite Hstride.
  pose proof (read_loop_run stride (reads cap) Hnz 0 []) as Hloop.
  change (Z.of_nat 0) with 0%Z in Hloop. rewrite Hloop. simpl.
  rewrite added_record. split; [done|]. split; [done|].
  intros f. apply elem_of_sampled.
Qed.



(** [int] cuts the fraction off, towards zero. *)
Example int_of_float_truncates :
  int_of_float 59.94%float = Ret 59%Z
  ∧ int_of_float (-59.94)%float = Ret (-59)%Z
  ∧ int_of_float 0.5%float = Ret 0%Z
  ∧ int_of_float 60%float = Ret 60%Z
  ∧ int_of_float nan = Raise ValueError
  ∧ int_of_float infinity = Raise OverflowError.
Proof. repeat split; vm_compute; reflexivity. Qed.

Lemma extract_frames_samples_every_stride_witness :
  snd (extract_frames (host_with ntsc_capture) "upload.mp4" 2 demo_world)
  = Ret (sampled 59 (reads ntsc_capture)).
Proof.
  apply (extract_frames_samples_every_stride (host_with ntsc_capture)
           "upload.mp4" 2 59 demo_world);
    [by vm_compute | reflexivity | reflexivity | by vm_compute | done].
Defined.

(** C3, counterexample.  At 29.97 frames a second and an interval of two
    seconds the product is 59.94: the code takes the stride 59, where
    rounding gives 60.  Of sixty decoded frames the code returns two,
    those at the indices 0 and 59; a stride of 60 selects the first
    only. *)
Lemma extract_frames_stride_not_rounded :
  frame_interval 29.97%float 2 = Ret 59%Z
  ∧ spec_frame_interval 29.97%float 2 = Ret 60%Z
  ∧ snd (extract_frames (host_with ntsc_capture) "upload.mp4" 2 demo_world)
    = Ret (sampled 59 (reads ntsc_capture))
  ∧ length (sampled 59 (reads ntsc_capture)) = 2
  ∧ length (sampled 60 (reads ntsc_capture)) = 1.
Proof. repeat split; vm_compute; reflexivity. Qed.


(** ** Audio extraction *)

Lemma temp_path_truthy (name suffix : string) :
  suffix ≠ "" → truthy (PStr (name +:+ suffix)) = true.
Proof.
  intros Hs. simpl. destruct name as [|c name]; [|done].
  rewrite append_empty. destruct suffix; [done|reflexivity].
Qed.

(** The [finally] clause on an existing temporary file: one call of
    [os.remove], whose failure is swallowed. *)
Lemma cleanup_temp (os : host) (name : string) (w : world) :
  let temp := name +:+ ".mp3" in
  temp ∈ files w →
  ∃ w', cleanup os (Some temp) w = (w', Ret tt)
        ∧ trace w' = trace w ++ [OsRemove temp]
        ∧ (temp ∈ files w' ↔ os_remove_fails os temp = true)
        ∧ (∀ p, p ≠ temp → p ∈ files w' ↔ p ∈ files w).
Proof.
  intros temp Hin. unfold cleanup.
  assert (truthy (PStr temp) = true) as -> by (by apply temp_path_truthy).
  unfold os_remove. eff_unfold. simpl.
  rewrite !bool_decide_eq_true_2 by done. simpl.
  destruct (os_remove_fails os temp) eqn:Hf; simpl.
  - eexists. split; [reflexivity|]. simpl. repeat split; try done.
  - eexists. split; [reflexivity|]. simpl. repeat split; try done;
      set_solver.
Qed.

#[local] Arguments cleanup : simpl never.

Ltac cleanup_step os name :=
  match goal with
  | |- context [cleanup os (Some ?temp) ?w2] =>
      let w3 := fresh "w" in
      let Ht := fresh "Ht" in
      let Hf := fresh "Hf" in
      let Ho := fresh "Ho" in
      destruct (cleanup_temp os name w2) as (w3 & -> & Ht & Hf & Ho);
      [simpl; set_solver|];
      simpl in *;
      eexists; split; [reflexivity|]; unfold added; simpl;
      rewrite Ht, <- !app_assoc, drop_app_length; simpl;
      split; [done|]; split; [exact Hf|];
      intros p Hp; rewrite (Ho p Hp); set_solver
  end.

Lemma extract_audio_segments_run (os : host) (self : VideoProcessor)
    (video_path name : string) (w : world) :
  let temp := name +:+ ".mp3" in
  video_path ∈ files w →
  moviepy_VideoFileClip os video_path = Ret {| has_audio := true |} →
  mkstemp_name os = Ret name →
  ∃ w', extract_audio_segments os self video_path w
        = (w', Ret (snd (audio_outcome os self video_path temp)))
        ∧ added w w' = fst (audio_outcome os self video_path temp)
        ∧ (temp ∈ files w' ↔ os_remove_fails os temp = true)
        ∧ (∀ p, p ≠ temp → p ∈ files w' ↔ p ∈ files w).
Proof.
  intros temp Hin Hclip Hname. subst temp.
  unfold extract_audio_segments, audio_outcome, mkstemp, transcribe_track,
    write_audiofile, transcribe, log_audio_error.
  eff_unfold. simpl.
  rewrite bool_decide_eq_true_2 by done. simpl.
  rewrite Hclip, Hname. simpl.
  destruct (write_audiofile_fault os _) as [e|] eqn:Hw; simpl.
  - cleanup_step os name.
  - destruct (whisper_model self _) as [result|e] eqn:Hwh; simpl;
      cleanup_step os name.
Qed.

(** C2, as the code has it.  When the transcription succeeds, the
    processor returns one segment for each raw segment, in the same
    order, with the same start and end and with the text trimmed.  No
    segment is dropped: a segment whose text is whitespace is returned
    with the empty text. *)
Theorem extract_audio_segments_trims (os : host) (self : VideoProcessor)
    (video_path name : string) (raw : list Segment) (w : world) :
  video_path ∈ files w →
  moviepy_VideoFileClip os video_path = Ret {| has_audio := true |} →
  mkstemp_name os = Ret name →
  write_audiofile_fault os (name +:+ ".mp3") = None →
  whisper_model self (name +:+ ".mp3") = Ret {| segments := Some raw |} →
  ∃ segments_data,
    snd (extract_audio_segments os self video_path w) = Ret segments_data
    ∧ Forall2 (λ segment out,
                 start out = start segment ∧ end_ out = end_ segment
                 ∧ text out = strip (text segment))
              raw segments_data
    ∧ Forall2 (λ segment out, blank (text segment) = true ↔ text out = "")
              raw segments_data.
Proof.
  intros Hin Hclip Hname Hwrite Hwhisper.
  destruct (extract_audio_segments_run os self video_path name w
              Hin Hclip Hname) as (w' & -> & _).
  unfold audio_outcome. rewrite Hwrite, Hwhisper. simpl.
  exists (map trimmed raw). split; [done|]. split.
  - apply Forall2_fmap_r, Forall_Forall2_diag, Forall_forall. done.
  - apply Forall2_fmap_r, Forall_Forall2_diag, Forall_forall.
    intros segment _. simpl. by rewrite strip_empty_iff.
Qed.

Lemma extract_audio_segments_trims_witness :
  ∃ segments_data,
    snd (extract_audio_segments demo_host demo_processor "upload.mp4"
           demo_world) = Ret segments_data
    ∧ Forall2 (λ segment out,
                 start out = start segment ∧ end_ out = end_ segment
                 ∧ text out = strip (text segment))
              demo_transcript segments_data
    ∧ Forall2 (λ segment out, blank (text segment) = true ↔ text out = "")
              demo_transcript segments_data.
Proof.
  apply (extract_audio_segments_trims demo_host demo_processor "upload.mp4"
           "/tmp/tmpk3v9" demo_transcript demo_world);
    [by vm_compute | reflexivity..].
Defined.

(** C2, counterexample.  A raw segment of whitespace is not dropped:
    of the two raw segments of the scenario both come out, the second
    with the empty text. *)
Lemma extract_audio_segments_keeps_blank :
  snd (extract_audio_segments demo_host demo_processor "upload.mp4"
         demo_world)
  = Ret [{| start := 0%float; end_ := 1.5%float; text := "hello" |};
         {| start := 1.5%float; end_ := 3%float; text := "" |}]
  ∧ ¬ (∀ segments_data,
         snd (extract_audio_segments demo_host demo_processor "upload.mp4"
                demo_world) = Ret segments_data →
         Forall (λ segment, text segment ≠ "") segments_data).
Proof.
  assert (snd (extract_audio_segments demo_host demo_processor "upload.mp4"
                 demo_world)
          = Ret [{| start := 0%float; end_ := 1.5%float; text := "hello" |};
                 {| start := 1.5%float; end_ := 3%float; text := "" |}])
    as Hrun by (vm_compute; reflexivity).
  split; [exact Hrun|].
  intros H. specialize (H _ Hrun).
  apply Forall_cons in H as [_ H]. apply Forall_cons in H as [H _].
  by apply H.
Qed.

(** C7, as the code has it.  Once the temporary audio file exists, every
    way out of [extract_audio_segments] (a failure to write the audio, a
    failure of the transcription, a normal return) calls [os.remove] on
    it, and the call returns a list.  The file is gone afterwards unless
    [os.remove] itself fails: that failure is swallowed and the file
    stays.  No other file is created or removed. *)
Theorem temp_audio_removed (os : host) (self : VideoProcessor)
    (video_path name : string) (w : world) :
  video_path ∈ files w →
  moviepy_VideoFileClip os video_path = Ret {| has_audio := true |} →
  mkstemp_name os = Ret name →
  let temp := name +:+ ".mp3" in
  let run := extract_audio_segments os self video_path w in
  (∃ segments_data, snd run = Ret segments_data)
  ∧ (OsRemove temp ∈ added w (fst run))
  ∧ (temp ∈ files (fst run) ↔ os_remove_fails os temp = true)
  ∧ (∀ p, p ≠ temp → p ∈ files (fst run) ↔ p ∈ files w).
Proof.
  intros Hin Hclip Hname temp run. subst run temp.
  destruct (extract_audio_segments_run os self video_path name w
              Hin Hclip Hname) as (w' & -> & Hadded & Hfiles & Hother).
  simpl. split; [by eexists|]. split; [|by split].
  rewrite Hadded. unfold audio_outcome.
  destruct (write_audiofile_fault os _); [|destruct (whisper_model self _)];
    simpl; set_solver.
Qed.

Lemma temp_audio_removed_witness :
  (OsRemove "/tmp/tmpk3v9.mp3"
     ∈ added demo_world
         (fst (extract_audio_segments demo_host demo_processor "upload.mp4"
                 demo_world)))
  ∧ ("/tmp/tmpk3v9.mp3"
       ∉ files (fst (extract_audio_segments demo_host demo_processor
                       "upload.mp4" demo_world))).
Proof.
  destruct (temp_audio_removed demo_host demo_processor "upload.mp4"
              "/tmp/tmpk3v9" demo_world) as (_ & Hrm & Hfiles & _);
    [by vm_compute | reflexivity | reflexivity |].
  split; [exact Hrm|]. intros Hin. apply Hfiles in Hin. discriminate.
Defined.

(** C7, counterexample.  On a host where [os.remove] fails, the call
    returns normally and the temporary audio file is still there. *)
Lemma temp_audio_persists_when_remove_fails :
  snd (extract_audio_segments locked_host demo_processor "upload.mp4"
         demo_world)
  = Ret (map trimmed demo_transcript)
  ∧ ("/tmp/tmpk3v9.mp3" ∉ files demo_world)
  ∧ ("/tmp/tmpk3v9.mp3"
       ∈ files (fst (extract_audio_segments locked_host demo_processor
                       "upload.mp4" demo_world))).
Proof.
  split; [by vm_compute|]. split; compute_done.
Qed.

(** ** The embedding engine *)

(** C8.  On an empty list [encode_images] and [encode_text] return the
    empty list and leave the world as it is: the model is not called.
    On a list the model accepts, they return what the model returns; for
    a model that yields one row for each input, in order, the result has
    the length of the input and its [i]-th vector is the embedding of
    the [i]-th input. *)
Theorem encode_preserves_order_and_length (self : EmbeddingEngine)
    (embed_image : Image → list float) (embed_text : string → list float)
    (w : world) :
  (∀ images vs, model_encode self (Images images) = Ret vs →
                vs = map embed_image images) →
  (∀ text_list vs, model_encode self (Texts text_list) = Ret vs →
                   vs = map embed_text text_list) →
  encode_images self [] w = (w, Ret [])
  ∧ encode_text self [] w = (w, Ret [])
  ∧ (∀ images,
       (∃ vs, model_encode self (Images images) = Ret vs) →
       ∃ out, snd (encode_images self images w) = Ret out
              ∧ length out = length images
              ∧ ∀ i, out !! i = embed_image <$> images !! i)
  ∧ (∀ text_list,
       (∃ vs, model_encode self (Texts text_list) = Ret vs) →
       ∃ out, snd (encode_text self text_list w) = Ret out
              ∧ length out = length text_list
              ∧ ∀ i, out !! i = embed_text <$> text_list !! i).
Proof.
  intros Himages Htexts. split; [done|]. split; [done|]. split.
  - intros images [vs Hvs]. exists (map embed_image images).
    split; [|split; [by rewrite length_map | intros i; apply list_lookup_fmap]].
    destruct images as [|x images]; [done|].
    unfold encode_images, try_except, encode. eff_unfold. simpl.
    rewrite Hvs. simpl. by rewrite (Himages _ _ Hvs).
  - intros text_list [vs Hvs]. exists (map embed_text text_list).
    split; [|split; [by rewrite length_map | intros i; apply list_lookup_fmap]].
    destruct text_list as [|x text_list]; [done|].
    unfold encode_text, try_except, encode. eff_unfold. simpl.
    rewrite Hvs. simpl. by rewrite (Htexts _ _ Hvs).
Qed.

Lemma repeat_as_map {A B} (x : B) (l : list A) :
  repeat x (length l) = map (λ _, x) l.
Proof. induction l as [|a l IH]; simpl; [done|]. by rewrite IH. Qed.

Lemma encode_preserves_order_and_length_witness :
  encode_images demo_engine [] demo_world = (demo_world, Ret [])
  ∧ ∃ out,
      snd (encode_text demo_engine ["hello"; "world"] demo_world) = Ret out
      ∧ length out = 2
      ∧ ∀ i, out !! i
             = (λ _, [1%float; 0%float]) <$> ["hello"; "world"] !! i.
Proof.
  destruct (encode_preserves_order_and_length demo_engine
              (λ _, [1%float; 0%float]) (λ _, [1%float; 0%float]) demo_world)
    as (Hempty & _ & _ & Htext).
  - intros images vs [= <-]. apply repeat_as_map.
  - intros text_list vs [= <-]. apply repeat_as_map.
  - split; [exact Hempty|].
    apply (Htext ["hello"; "world"]). by eexists.
Defined.

(** ** The points [index_video] builds *)

Lemma added_draw (n : nat) (w : world) : added w (draw n w) = [].
Proof. unfold added, draw; simpl. by rewrite drop_all. Qed.

Lemma draw_draw (n m : nat) (w : world) :
  draw n (draw m w) = draw (m + n) w.
Proof. unfold draw; simpl. f_equal. lia. Qed.

Lemma valid_vectors_app (self : VectorStore)
    (items items' : list (gmap string pyval)) :
  valid_vectors self (items ++ items')
  = valid_vectors self items && valid_vectors self items'.
Proof. apply forallb_app. Qed.

(** Items without vector are all accepted: nothing is constructed. *)
Lemma no_vector_valid (self : VectorStore)
    (items : list (gmap string pyval)) :
  Forall no_vector items → valid_vectors self items = true.
Proof.
  induction 1 as [|item rest Hitem _ IH]; simpl; [done|].
  unfold accepted. unfold no_vector in Hitem. by rewrite Hitem, IH.
Qed.

Lemma no_vector_filter (items : list (gmap string pyval)) :
  filter has_vector items = [] ↔ Forall no_vector items.
Proof.
  induction items as [|item rest IH]; [by split|].
  rewrite filter_cons, Forall_cons. unfold has_vector, no_vector in *.
  destruct (decide (truthy (dict_get item "vector") = true)) as [Hv|Hv].
  - split; [done|]. intros [H _]. congruence.
  - rewrite IH. split; [|tauto]. intros H. split; [|done].
    by destruct (truthy _).
Qed.

Section IndexVideo.

Variable self : VectorStore.
Variable video_id : string.
Variable metadata : gmap string pyval.

(** Both loops run alike.  On items that are all accepted, each item
    with a vector draws an identifier and adds a point. *)
Ltac loop_built IH item :=
  let Hvalid := fresh "Hvalid" in
  let Hitem := fresh "Hitem" in
  let Hrest := fresh "Hrest" in
  let Hv := fresh "Hv" in
  intros Hvalid points w; simpl;
  simpl in Hvalid; apply andb_true_iff in Hvalid as [Hitem Hrest];
  unfold accepted in Hitem; rewrite filter_cons;
  destruct (decide (has_vector item)) as [Hv|Hv];
  [ unfold has_vector in Hv; rewrite Hv in Hitem; simpl in Hitem;
    rewrite Hv; unfold bind at 1; simpl;
    unfold bind at 1, new_PointStruct at 1; rewrite Hitem; simpl;
    rewrite (IH Hrest); simpl; rewrite Nat.add_0_r, <- app_assoc; simpl;
    f_equal; [unfold draw; simpl; f_equal; lia|];
    do 3 f_equal; apply imap_ext; intros ? ? _; simpl;
    do 2 f_equal; lia
  | assert (truthy (dict_get item "vector") = false) as ->
      by (unfold has_vector in Hv; by destruct (truthy _));
    apply (IH Hrest) ].

(** On items of which one is refused, the loop raises at the first of
    them, after the identifiers drawn up to there. *)
Ltac loop_refused IH item :=
  let Hvalid := fresh "Hvalid" in
  let Hv := fresh "Hv" in
  let Hf := fresh "Hf" in
  let n := fresh "n" in
  let Hn := fresh "Hn" in
  intros Hvalid points w; simpl in *;
  apply andb_false_iff in Hvalid; unfold accepted in Hvalid;
  destruct (truthy (dict_get item "vector")) eqn:Hv; simpl in Hvalid;
  [ unfold bind at 1; simpl; unfold bind at 1, new_PointStruct at 1;
    destruct (passes (client self) (dict_get item "vector")) eqn:Hf; simpl;
    [ destruct Hvalid as [Hvalid|Hvalid]; [done|];
      edestruct (IH Hvalid) as [n Hn]; exists (S n); rewrite Hn;
      f_equal; unfold draw; simpl; f_equal; lia
    | by exists 1 ]
  | destruct Hvalid as [Hvalid|Hvalid]; [done|]; apply (IH Hvalid) ].

Lemma visual_points_built (items : list (gmap string pyval)) :
  valid_vectors self items = true →
  ∀ (points : list PointStruct) (w : world),
    visual_points (client self) video_id metadata items points w
    = (draw (length (filter has_vector items)) w,
       Ret (points
            ++ visual_built video_id metadata (entropy w) (drawn w) items)).
Proof.
  unfold visual_built, valid_vectors.
  induction items as [|item rest IH]; [|loop_built IH item].
  intros _ points w. simpl. by rewrite draw_0, app_nil_r.
Qed.

Lemma audio_points_built (items : list (gmap string pyval)) :
  valid_vectors self items = true →
  ∀ (points : list PointStruct) (w : world),
    audio_points (client self) video_id metadata items points w
    = (draw (length (filter has_vector items)) w,
       Ret (points
            ++ audio_built video_id metadata (entropy w) (drawn w) items)).
Proof.
  unfold audio_built, valid_vectors.
  induction items as [|item rest IH]; [|loop_built IH item].
  intros _ points w. simpl. by rewrite draw_0, app_nil_r.
Qed.

Lemma visual_points_refused (items : list (gmap string pyval)) :
  valid_vectors self items = false →
  ∀ (points : list PointStruct) (w : world),
    ∃ n, visual_points (client self) video_id metadata items points w
         = (draw n w, Raise ValueError).
Proof.
  unfold valid_vectors.
  induction items as [|item rest IH]; [done|loop_refused IH item].
Qed.

Lemma audio_points_refused (items : list (gmap string pyval)) :
  valid_vectors self items = false →
  ∀ (points : list PointStruct) (w : world),
    ∃ n, audio_points (client self) video_id metadata items points w
         = (draw n w, Raise ValueError).
Proof.
  unfold valid_vectors.
  induction items as [|item rest IH]; [done|loop_refused IH item].
Qed.

End IndexVideo.

Lemma length_built (video_id : string) (metadata : gmap string pyval)
    (ent : nat → string) (n : nat)
    (visual_vectors audio_vectors : list (gmap string pyval)) :
  length (built_points video_id metadata ent n visual_vectors audio_vectors)
  = length (filter has_vector visual_vectors)
    + length (filter has_vector audio_vectors).
Proof.
  unfold built_points, visual_built, audio_built.
  by rewrite length_app, !length_imap.
Qed.

Lemma built_nil (video_id : string) (metadata : gmap string pyval)
    (ent : nat → string) (n : nat)
    (visual_vectors audio_vectors : list (gmap string pyval)) :
  built_points video_id metadata ent n visual_vectors audio_vectors = []
  ↔ Forall no_vector (visual_vectors ++ audio_vectors).
Proof.
  rewrite Forall_app, <- !no_vector_filter.
  rewrite <- !length_zero_iff_nil, length_built. lia.
Qed.

(** [index_video] on items that are all accepted, exactly. *)
Lemma index_video_built (self : VectorStore) (video_id : string)
    (visual_vectors audio_vectors : list (gmap string pyval))
    (metadata : gmap string pyval) (w : world) :
  let points := built_points video_id metadata (entropy w) (drawn w)
                  visual_vectors audio_vectors in
  valid_vectors self (visual_vectors ++ audio_vectors) = true →
  index_video self video_id visual_vectors audio_vectors metadata w
  = (record (index_events self video_id points) (draw (length points) w),
     Ret tt).
Proof.
  intros points Hvalid. subst points.
  rewrite valid_vectors_app in Hvalid.
  apply andb_true_iff in Hvalid as [Hvis Haud].
  unfold index_video.
  unfold bind at 1. rewrite visual_points_built by done.
  unfold bind at 1. rewrite audio_points_built by done. simpl.
  rewrite length_built, draw_draw.
  unfold built_points.
  assert (length (filter has_vector visual_vectors) + drawn w
          = drawn w + length (filter has_vector visual_vectors)) as -> by lia.
  destruct (_ ++ _) as [|p pts] eqn:Hpts; [done|].
  simpl. unfold try_except, upsert, bind. simpl.
  destruct (upsert_fault _ _ _); simpl; unfold record, log, emit; simpl;
    by rewrite <- app_assoc.
Qed.

(** [index_video] on items of which one is refused: the construction of
    its point raises, outside any [try], before anything is logged or
    sent. *)
Lemma index_video_refused (self : VectorStore) (video_id : string)
    (visual_vectors audio_vectors : list (gmap string pyval))
    (metadata : gmap string pyval) (w : world) :
  valid_vectors self (visual_vectors ++ audio_vectors) = false →
  ∃ n, index_video self video_id visual_vectors audio_vectors metadata w
       = (draw n w, Raise ValueError).
Proof.
  intros Hvalid. rewrite valid_vectors_app in Hvalid.
  unfold index_video.
  destruct (valid_vectors self visual_vectors) eqn:Hvis.
  - simpl in Hvalid.
    unfold bind at 1. rewrite visual_points_built by done.
    destruct (audio_points_refused self video_id metadata audio_vectors Hvalid
                ([] ++ visual_built video_id metadata (entropy w) (drawn w)
                                    visual_vectors)
                (draw (length (filter has_vector visual_vectors)) w))
      as [n Hn].
    unfold bind at 1. rewrite Hn. rewrite draw_draw. by eexists.
  - destruct (visual_points_refused self video_id metadata visual_vectors Hvis
                [] w) as [n Hn].
    unfold bind at 1. rewrite Hn. by eexists.
Qed.

(** C9.  A call of [index_video] upserts only when it has built at least
    one point.  When no item of either list carries a vector, so that
    the combined point set is empty, the call returns without an
    upsert: all it does is log the warning "No valid points to index.",
    a message no other path of the store logs.  When some item carries
    a vector and the call returns, the upsert of the points is the
    first thing it does.  The call returns exactly when [PointStruct]
    accepts every vector; when one is refused, the call raises while
    it builds the points, and nothing is logged or upserted. *)
Theorem index_video_empty_skips_upsert (self : VectorStore)
    (video_id : string)
    (visual_vectors audio_vectors : list (gmap string pyval))
    (metadata : gmap string pyval) (w : world) :
  let run := index_video self video_id visual_vectors audio_vectors metadata w in
  (∀ name points, Upsert name points ∈ added w (fst run) → points ≠ [])
  ∧ (Forall no_vector (visual_vectors ++ audio_vectors) →
     snd run = Ret tt
     ∧ added w (fst run) = [Log WARNING "No valid points to index." []])
  ∧ (¬ Forall no_vector (visual_vectors ++ audio_vectors) →
     match snd run with
     | Ret _ =>
         ∃ points, points ≠ []
           ∧ head (added w (fst run))
             = Some (Upsert (collection_name self) points)
     | Raise _ => added w (fst run) = []
     end)
  ∧ (snd run = Ret tt
     ↔ valid_vectors self (visual_vectors ++ audio_vectors) = true).
Proof.
  intros run. subst run.
  destruct (valid_vectors self (visual_vectors ++ audio_vectors)) eqn:Hvalid.
  - rewrite index_video_built by done. simpl. rewrite added_record_draw.
    set (points := built_points _ _ _ _ _ _).
    pose proof (built_nil video_id metadata (entropy w) (drawn w)
                  visual_vectors audio_vectors) as Hnil.
    fold points in Hnil.
    split; [|split; [|split; [|done]]].
    + intros name pts Hin. destruct points as [|p rest]; simpl in Hin.
      * apply list_elem_of_singleton in Hin. discriminate.
      * apply elem_of_cons in Hin as [Hin|Hin]; [by inversion Hin|].
        apply list_elem_of_singleton in Hin.
        destruct (upsert_fault _ _ _); discriminate.
    + intros H. apply Hnil in H. by rewrite H.
    + intros H. destruct points as [|p rest] eqn:Hpts.
      * exfalso. by apply H, Hnil.
      * exists (p :: rest). by split.
  - destruct (index_video_refused self video_id visual_vectors audio_vectors
                metadata w Hvalid) as [n ->].
    simpl. rewrite added_draw.
    split; [|split; [|split; [done|]]].
    + intros name pts Hin. by apply elem_of_nil in Hin.
    + intros H. apply (no_vector_valid self) in H. congruence.
    + split; intros; discriminate.
Qed.

Lemma index_video_empty_skips_upsert_witness :
  snd (index_video demo_store "vid"
         [<["timestamp" := PFloat 0]> ∅] [<["vector" := PList []]> ∅]
         ∅ demo_world)
  = Ret tt
  ∧ added demo_world
      (fst (index_video demo_store "vid"
              [<["timestamp" := PFloat 0]> ∅] [<["vector" := PList []]> ∅]
              ∅ demo_world))
    = [Log WARNING "No valid points to index." []].
Proof.
  destruct (index_video_empty_skips_upsert demo_store "vid"
              [<["timestamp" := PFloat 0]> ∅] [<["vector" := PList []]> ∅]
              ∅ demo_world) as (_ & Hempty & _).
  apply Hempty. repeat constructor.
Defined.

(** ** The shape of a payload *)

Lemma spread_lookup_fresh (base extra : gmap string pyval) (k : string) :
  extra !! k = None → dict_spread base extra !! k = base !! k.
Proof. intros H. unfold dict_spread. by apply lookup_union_r. Qed.

Lemma spread_lookup_base (base extra : gmap string pyval) (k : string) :
  is_Some (base !! k) → is_Some (dict_spread base extra !! k).
Proof.
  intros H. unfold dict_spread. apply lookup_union_is_Some. by right.
Qed.


Lemma visual_payload_required (video_id : string) (timestamp : pyval)
    (metadata : gmap string pyval) :
  required_keys (visual_payload video_id timestamp metadata).
Proof.
  unfold required_keys, visual_payload.
  repeat split; apply spread_lookup_base; by eexists.
Qed.

Lemma audio_payload_required (video_id : string) (item : gmap string pyval)
    (metadata : gmap string pyval) :
  required_keys (audio_payload video_id item metadata).
Proof.
  unfold required_keys, audio_payload.
  repeat split; apply spread_lookup_base; by eexists.
Qed.

Lemma visual_payload_shape (video_id : string) (timestamp : pyval)
    (metadata : gmap string pyval) :
  plain_metadata metadata →
  visual_shape (visual_payload video_id timestamp metadata).
Proof.
  intros (Hty & Hts & Hst & Htx). unfold visual_shape, visual_payload.
  split; rewrite spread_lookup_fresh by done; reflexivity.
Qed.

Lemma audio_payload_shape (video_id : string) (item : gmap string pyval)
    (metadata : gmap string pyval) :
  plain_metadata metadata →
  audio_shape (audio_payload video_id item metadata).
Proof.
  intros (Hty & Hts & Hst & Htx). unfold audio_shape, audio_payload.
  split; [by rewrite spread_lookup_fresh by done|].
  repeat split; try (apply spread_lookup_base; by eexists).
  by rewrite !spread_lookup_fresh by done.
Qed.

Lemma built_required (video_id : string) (metadata : gmap string pyval)
    (ent : nat → string) (n : nat)
    (visual_vectors audio_vectors : list (gmap string pyval)) :
  Forall (λ p, required_keys (payload p))
         (built_points video_id metadata ent n visual_vectors audio_vectors).
Proof.
  unfold built_points, visual_built, audio_built.
  apply Forall_app. split; apply Forall_forall; intros p Hp;
    apply elem_of_lookup_imap in Hp as (k & item & -> & _); simpl.
  - apply visual_payload_required.
  - apply audio_payload_required.
Qed.

Lemma built_shape (video_id : string) (metadata : gmap string pyval)
    (ent : nat → string) (n m : nat) (items : list (gmap string pyval)) :
  plain_metadata metadata →
  Forall (λ p, visual_shape (payload p))
         (visual_built video_id metadata ent n items)
  ∧ Forall (λ p, audio_shape (payload p))
           (audio_built video_id metadata ent m items).
Proof.
  intros Hmd. unfold visual_built, audio_built.
  split; apply Forall_forall; intros p Hp;
    apply elem_of_lookup_imap in Hp as (k & item & -> & _); simpl.
  - by apply visual_payload_shape.
  - by apply audio_payload_shape.
Qed.

(** C4, as the code has it.  [index_video] returns when [PointStruct]
    accepts the vector of every item, as it does every list of floats;
    the points it then upserts are one for each visual item with a
    vector followed by one for each audio item with a vector.  Every one of them has the
    keys [video_id], [type] (the modality) and [timestamp] in its
    payload, whatever the metadata.  When the metadata has none of the
    keys [type], [timestamp], [start] and [text], the points of the
    first loop have the type [visual] and no [text], and the points of
    the second loop have the type [audio], carry [start], [end] and
    [text], and their [timestamp] is their [start].  When a vector is
    refused the call raises and no point leaves it. *)
Theorem index_video_payload_shape (self : VectorStore) (video_id : string)
    (visual_vectors audio_vectors : list (gmap string pyval))
    (metadata : gmap string pyval) (w : world) :
  let run := index_video self video_id visual_vectors audio_vectors
               metadata w in
  (valid_vectors self (visual_vectors ++ audio_vectors) = true →
   ∃ visual audio,
     snd run = Ret tt
     ∧ added w (fst run) = index_events self video_id (visual ++ audio)
     ∧ length visual = length (filter has_vector visual_vectors)
     ∧ length audio = length (filter has_vector audio_vectors)
     ∧ Forall (λ p, required_keys (payload p)) (visual ++ audio)
     ∧ (plain_metadata metadata →
        Forall (λ p, visual_shape (payload p)) visual
        ∧ Forall (λ p, audio_shape (payload p)) audio))
  ∧ (valid_vectors self (visual_vectors ++ audio_vectors) = false →
     snd run = Raise ValueError ∧ added w (fst run) = []).
Proof.
  intros run. subst run. split; intros Hvalid.
  - rewrite index_video_built by done. simpl. rewrite added_record_draw.
    exists (visual_built video_id metadata (entropy w) (drawn w)
              visual_vectors),
           (audio_built video_id metadata (entropy w)
              (drawn w + length (filter has_vector visual_vectors))
              audio_vectors).
    split; [done|]. split; [done|].
    split; [by unfold visual_built; rewrite length_imap|].
    split; [by unfold audio_built; rewrite length_imap|].
    split; [apply built_required|].
    intros Hmd. split.
    + by apply (built_shape video_id metadata (entropy w) (drawn w) 0
                  visual_vectors).
    + by apply (built_shape video_id metadata (entropy w) 0
                  (drawn w + length (filter has_vector visual_vectors))
                  audio_vectors).
  - destruct (index_video_refused self video_id visual_vectors audio_vectors
                metadata w Hvalid) as [n ->].
    simpl. by rewrite added_draw.
Qed.

(** C4, counterexample.  [**metadata] comes last in the payload
    literals, so a key of the metadata overrides the key of the literal:
    with the metadata [{"text": "caption"}] the payload of a visual
    point carries a [text]. *)
Lemma index_video_metadata_overrides_text :
  let metadata : gmap string pyval := <["text" := PStr "caption"]> ∅ in
  let p := {| id := "point-0"; vector := floats [1%float; 0%float];
              payload := visual_payload "vid" (PFloat 0) metadata |} in
  added demo_world
    (fst (index_video demo_store "vid"
            [visual_entry [1%float; 0%float] demo_frame] [] metadata
            demo_world))
  = index_events demo_store "vid" [p]
  ∧ payload p !! "type" = Some (PStr "visual")
  ∧ payload p !! "text" = Some (PStr "caption")
  ∧ ¬ visual_shape (payload p).
Proof.
  repeat split; try (vm_compute; reflexivity).
  intros [_ H]. vm_compute in H. discriminate.
Qed.

Lemma index_video_payload_shape_witness :
  let metadata : gmap string pyval := <["filename" := PStr "upload.mp4"]> ∅ in
  plain_metadata metadata
  ∧ ∃ visual audio,
      added demo_world
        (fst (index_video demo_store "vid"
                [visual_entry [1%float; 0%float] demo_frame]
                [audio_entry [1%float; 0%float] demo_segment] metadata
                demo_world))
      = index_events demo_store "vid" (visual ++ audio)
      ∧ length visual = 1 ∧ length audio = 1
      ∧ Forall (λ p, visual_shape (payload p)) visual
      ∧ Forall (λ p, audio_shape (payload p)) audio.
Proof.
  intros metadata.
  assert (plain_metadata metadata) as Hmd by (by vm_compute).
  split; [exact Hmd|].
  destruct (index_video_payload_shape demo_store "vid"
              [visual_entry [1%float; 0%float] demo_frame]
              [audio_entry [1%float; 0%float] demo_segment] metadata
              demo_world) as [Hvalid _].
  destruct (Hvalid eq_refl)
    as (visual & audio & _ & Hev & Hlv & Hla & _ & Hshape).
  exists visual, audio. split; [exact Hev|].
  split; [exact Hlv|]. split; [exact Hla|]. exact (Hshape Hmd).
Defined.

(** ** The query path *)

Lemma format_hit_run (hit : ScoredPoint) (w : world) :
  format_hit hit w
  = (w, match formatted hit with
        | Some r => Ret r
        | None => Raise AttributeError
        end).
Proof. unfold format_hit, formatted. by destruct (hit_payload hit). Qed.

Lemma format_results_run (hits : list ScoredPoint) :
  ∀ (results : list (gmap string pyval)) (w : world),
    format_results hits results w
    = (w, match mapM formatted hits with
          | Some rs => Ret (results ++ rs)
          | None => Raise AttributeError
          end).
Proof.
  induction hits as [|hit rest IH]; intros results w; simpl.
  - by rewrite app_nil_r.
  - unfold bind at 1. rewrite format_hit_run.
    destruct (formatted hit) as [r|]; simpl; [|done].
    rewrite IH. destruct (mapM formatted rest) as [rs|]; simpl; [|done].
    by rewrite <- app_assoc.
Qed.

Lemma search_run (self : VectorStore) (engine : EmbeddingEngine)
    (query_text : string) (top_k : Z) (w : world) :
  embedding_engine self = Some engine →
  search self query_text top_k w
  = (record (fst (search_outcome self engine query_text top_k)) w,
     Ret (snd (search_outcome self engine query_text top_k))).
Proof.
  intros He. unfold search, search_outcome. rewrite He.
  unfold try_except, encode_text, try_except, encode, bind at 1 2.
  unfold lift, emit, log, emit, bind, ret, record; simpl.
  destruct (model_encode engine (Texts [query_text])) as [[|v vs]|e]; simpl.
  - done.
  - destruct (query_points _ _ _ _) as [hits|e]; simpl.
    + rewrite format_results_run.
      destruct (mapM formatted hits); simpl; by rewrite <- ?app_assoc.
    + by rewrite <- !app_assoc.
  - by rewrite <- app_assoc.
Qed.

Lemma ensure_collection_returns (self : VectorStore) (w : world) :
  ∃ w', _ensure_collection_exists self w = (w', Ret tt).
Proof.
  unfold _ensure_collection_exists, try_except, bind.
  unfold emit, lift, log, emit, ret, raise; simpl.
  destruct (get_collections (client self)) as [names|e]; simpl;
    [|by eexists].
  destruct (existsb _ names); simpl; [by eexists|].
  destruct (create_collection_fault _ _); simpl; by eexists.
Qed.

(** The store [__init__] returns holds the engine it was given. *)
Lemma init_engine (connect : string + string * Z → outcome QdrantClient)
    (name : option string) (engine : option EmbeddingEngine)
    (host : option string) (port : option Z) (path : option string)
    (w w' : world) (self : VectorStore) :
  __init__ connect name engine host port path w = (w', Ret self) →
  embedding_engine self = engine.
Proof.
  unfold __init__, try_except. unfold bind at 1.
  set (connected := match path with Some _ => _ | None => _ end).
  destruct (connected w) as [w1 [c|e]] eqn:Hc; simpl.
  - unfold bind at 1.
    match goal with |- context [_ensure_collection_exists ?s w1] =>
      destruct (ensure_collection_returns s w1) as (w2 & ->) end.
    simpl. unfold ret. intros [= <- <-]. reflexivity.
  - unfold bind, log, emit, raise. simpl. discriminate.
Qed.

Lemma search_fails_empty (self : VectorStore) (engine : EmbeddingEngine)
    (query_text : string) (top_k : Z) :
  search_fails self engine query_text top_k →
  snd (search_outcome self engine query_text top_k) = [].
Proof.
  unfold search_fails, search_outcome.
  destruct (model_encode _ _) as [[|v vs]|e]; simpl; try done.
  destruct (query_points _ _ _ _) as [hits|e]; simpl; try done.
  by intros ->.
Qed.

(** C10.  [search] raises exactly when the store has no embedding
    engine; it then raises [ValueError] at once, in an unchanged world:
    nothing was embedded and the index was not asked.  That is the case
    of a store constructed with the default [embedding_engine=None].
    With an engine, [search] returns a list, and the list is empty
    whenever a step inside failed. *)
Theorem search_raises_iff_no_engine (self : VectorStore)
    (query_text : string) (top_k : Z) (w : world) :
  ((∃ e, snd (search self query_text top_k w) = Raise e)
   ↔ embedding_engine self = None)
  ∧ (embedding_engine self = None →
     search self query_text top_k w = (w, Raise ValueError))
  ∧ (∀ connect name host port path w0,
       __init__ connect name None host port path w0 = (w, Ret self) →
       search self query_text top_k w = (w, Raise ValueError))
  ∧ (∀ engine, embedding_engine self = Some engine →
       ∃ w' results,
         search self query_text top_k w = (w', Ret results)
         ∧ (search_fails self engine query_text top_k → results = [])).
Proof.
  assert (embedding_engine self = None →
          search self query_text top_k w = (w, Raise ValueError)) as Hnone.
  { intros H. unfold search. by rewrite H. }
  repeat split.
  - intros [e He]. destruct (embedding_engine self) as [engine|] eqn:Heng;
      [|done].
    rewrite (search_run self engine) in He by done. discriminate.
  - intros H. exists ValueError. by rewrite Hnone.
  - exact Hnone.
  - intros connect name host port path w0 Hinit.
    apply Hnone. by apply init_engine in Hinit.
  - intros engine Heng. do 2 eexists. split.
    + by apply search_run.
    + apply search_fails_empty.
Qed.

Lemma visual_payload_text (video_id : string) (timestamp : pyval)
    (metadata : gmap string pyval) :
  dict_get (visual_payload video_id timestamp metadata) "text"
  = dict_get metadata "text".
Proof.
  unfold dict_get, visual_payload, dict_spread. rewrite lookup_union.
  by destruct (metadata !! "text").
Qed.

Lemma audio_payload_text (video_id : string) (item : gmap string pyval)
    (metadata : gmap string pyval) :
  dict_get (audio_payload video_id item metadata) "text"
  = default (dict_get item "text") (metadata !! "text").
Proof.
  unfold dict_get at 1, audio_payload, dict_spread. rewrite lookup_union.
  by destruct (metadata !! "text").
Qed.

(** C5, as the code has it.  Every dictionary [search] returns comes
    from a hit of the index, in the same position, and its [text] is
    what the payload of the hit holds under [text], [None] when the
    payload has no such key; [search] does not look at the type of the
    hit.  For the points [index_video] builds this is: for a visual
    point the [text] of the metadata of the video, [None] exactly when
    the metadata has none (or holds [None] there); for an audio point
    built from a segment of the processor the trimmed text of that
    segment, unless the metadata has a [text], which takes its place. *)
Theorem search_text_field (self : VectorStore) (query_text : string)
    (top_k : Z) (w w' : world) (results : list (gmap string pyval))
    (i : nat) (r : gmap string pyval) :
  search self query_text top_k w = (w', Ret results) →
  results !! i = Some r →
  ∃ engine query_vector rest hits hit pl,
    embedding_engine self = Some engine
    ∧ model_encode engine (Texts [query_text]) = Ret (query_vector :: rest)
    ∧ query_points (client self) (collection_name self) query_vector top_k
      = Ret hits
    ∧ hits !! i = Some hit
    ∧ hit_payload hit = Some pl
    ∧ r !! "type" = Some (dict_get pl "type")
    ∧ r !! "text" = Some (dict_get pl "text")
    ∧ (pl !! "text" = None → r !! "text" = Some PNone)
    ∧ (∀ video_id timestamp metadata,
         pl = visual_payload video_id timestamp metadata →
         r !! "text" = Some (dict_get metadata "text"))
    ∧ (∀ video_id v raw metadata,
         pl = audio_payload video_id (audio_entry v (trimmed raw)) metadata →
         r !! "text"
         = Some (default (PStr (strip (text raw))) (metadata !! "text"))).
Proof.
  intros Hrun Hr.
  destruct (embedding_engine self) as [engine|] eqn:Heng;
    [|unfold search in Hrun; rewrite Heng in Hrun; discriminate].
  rewrite (search_run self engine) in Hrun by done.
  injection Hrun as _ <-. unfold search_outcome in Hr.
  destruct (model_encode engine (Texts [query_text])) as [[|v vs]|e] eqn:Hm;
    simpl in Hr; try done.
  destruct (query_points _ _ _ _) as [hits|e] eqn:Hq; simpl in Hr; try done.
  destruct (mapM formatted hits) as [rs|] eqn:Hf; simpl in Hr; try done.
  apply mapM_Some in Hf.
  destruct (Forall2_lookup_r _ _ _ _ _ Hf Hr) as (hit & Hhit & Hfmt).
  unfold formatted in Hfmt. destruct (hit_payload hit) as [pl|] eqn:Hpl;
    [|done].
  injection Hfmt as <-.
  assert (result_dict (score hit) pl !! "text" = Some (dict_get pl "text"))
    as Htext by reflexivity.
  exists engine, v, vs, hits, hit, pl.
  do 6 (split; [done|]). rewrite Htext.
  split; [done|]. split; [|split].
  - intros Hnone. unfold dict_get. by rewrite Hnone.
  - intros video_id ts md ->. by rewrite visual_payload_text.
  - intros video_id v0 raw md ->. by rewrite audio_payload_text.
Qed.

(** C5, counterexample.  A video indexed with the metadata
    [{"text": ""}]: the payload of its visual point holds the empty
    string under [text], and [search] returns that hit with the type
    [visual] and the empty string, not [None], as its [text]. *)
Lemma search_visual_text_empty_string :
  let metadata : gmap string pyval := <["text" := PStr ""]> ∅ in
  let p := {| id := "point-0"; vector := floats [1%float; 0%float];
              payload := visual_payload "vid" (PFloat 0) metadata |} in
  let hit := {| score := 0.5%float; hit_payload := Some (payload p) |} in
  added demo_world
    (fst (index_video demo_store "vid"
            [visual_entry [1%float; 0%float] demo_frame] [] metadata
            demo_world))
  = index_events demo_store "vid" [p]
  ∧ ∃ r,
      snd (search (store_returning [hit]) "a red car" 5 demo_world) = Ret [r]
      ∧ r !! "type" = Some (PStr "visual")
      ∧ r !! "text" = Some (PStr "")
      ∧ r !! "text" ≠ Some PNone.
Proof.
  intros metadata p hit. split; [vm_compute; reflexivity|].
  exists (result_dict 0.5%float (payload p)).
  split; [|split; [|split]]; try (vm_compute; reflexivity).
  vm_compute. discriminate.
Qed.

Lemma search_raises_iff_no_engine_witness :
  (∃ w store,
     booted = (w, Ret store)
     ∧ search store "a red car" 5 w = (w, Raise ValueError))
  ∧ (∃ w' results,
       search demo_store "a red car" 5 demo_world = (w', Ret results)).
Proof.
  split.
  - destruct booted as [w [store|e]] eqn:Hb; [|vm_compute in Hb; discriminate].
    exists w, store. split; [reflexivity|].
    destruct (search_raises_iff_no_engine store "a red car" 5 w)
      as (_ & _ & Hinit & _).
    exact (Hinit (λ _, Ret demo_client) None None None
                 (Some "./qdrant_local_store") demo_world Hb).
  - destruct (search_raises_iff_no_engine demo_store "a red car" 5 demo_world)
      as (_ & _ & _ & Hsome).
    destruct (Hsome demo_engine eq_refl) as (w' & results & Hrun & _).
    by exists w', results.
Defined.

Lemma search_text_field_witness :
  snd (search demo_store "a red car" 5 demo_world) = Ret demo_results
  ∧ text_of demo_results 0 = Some PNone
  ∧ text_of demo_results 1 = Some (PStr "hello").
Proof.
  assert (∃ w', search demo_store "a red car" 5 demo_world
                = (w', Ret demo_results)) as [w' Hrun].
  { eexists. rewrite (search_run demo_store demo_engine) by reflexivity.
    reflexivity. }
  split; [by rewrite Hrun|]. split.
  - assert (∃ r, demo_results !! 0 = Some r) as [r Hr] by (by eexists).
    destruct (search_text_field _ _ _ _ _ _ _ _ Hrun Hr)
      as (engine & v & rest & hits & hit & pl & _ & _ & Hq & Hhit & Hpl
          & _ & _ & _ & Hvisual & _).
    injection Hq as <-. injection Hhit as <-. injection Hpl as <-.
    unfold text_of. rewrite Hr. simpl.
    exact (Hvisual "vid" (PFloat 0) (<["filename" := PStr "upload.mp4"]> ∅)
             eq_refl).
  - assert (∃ r, demo_results !! 1 = Some r) as [r Hr] by (by eexists).
    destruct (search_text_field _ _ _ _ _ _ _ _ Hrun Hr)
      as (engine & v & rest & hits & hit & pl & _ & _ & Hq & Hhit & Hpl
          & _ & _ & _ & _ & Haudio).
    injection Hq as <-. injection Hhit as <-. injection Hpl as <-.
    unfold text_of. rewrite Hr. simpl.
    exact (Haudio "vid" [1%float; 0%float]
             {| start := 0%float; end_ := 1.5%float; text := "  hello " |}
             (<["filename" := PStr "upload.mp4"]> ∅) eq_refl).
Defined.

(** ** Ingestion *)

(** C1, on the failing input.  The video has one frame and two audio
    segments; the model fails on the images and embeds the texts.
    [encode_images] returns the empty list, the subscript
    [visual_embeddings[0]] raises [IndexError], and the handler of
    [process_video_task] ends the ingestion there: the texts are never
    embedded, nothing is upserted, and the uploaded file stays.  With a
    model that embeds both, the same video is upserted. *)
Theorem process_video_task_aborts_on_failed_embedding :
  let run := process_video_task demo_host failing_state
               "upload.mp4" "vid" demo_world in
  added demo_world (fst run)
  = [Log INFO "Starting processing for {}..." [AStr "vid"];
     CapRelease "upload.mp4";
     Log INFO "Extracted {} frames from {}" [AInt 1; AStr "upload.mp4"];
     WriteAudiofile "/tmp/tmpk3v9.mp3";
     ClipClose "upload.mp4";
     Transcribe "/tmp/tmpk3v9.mp3";
     OsRemove "/tmp/tmpk3v9.mp3";
     Log INFO "Extracted {} audio segments from {}"
         [AInt 2; AStr "upload.mp4"];
     ModelEncode 1;
     Log ERROR "Error encoding images: {}" [AExn RuntimeError];
     Log ERROR "Error processing video {}: {}"
         [AStr "vid"; AExn IndexError]]
  ∧ existsb is_upsert (added demo_world (fst run)) = false
  ∧ ("upload.mp4" ∈ files (fst run))
  ∧ existsb is_upsert
      (added demo_world
         (fst (process_video_task demo_host working_state
                 "upload.mp4" "vid" demo_world))) = true.
Proof.
  intros run. subst run.
  split; [vm_compute; reflexivity|]. split; [vm_compute; reflexivity|].
  split; [compute_done | vm_compute; reflexivity].
Qed.

(** * Further properties

    What the modelled code shows beyond the statements above: its
    behaviour on missing files and degenerate videos, the discipline of
    its resources, the exact points and results it builds, and how the
    stages compose. *)

(** ** More vocabulary *)

(** What [extract_frames] adds to the trace and returns on an existing
    file. *)
Definition frames_outcome (os : host) (video_path : string) (interval : Z)
    : list event * list Frame :=
  let cap := cv2_VideoCapture os video_path in
  if negb (isOpened cap) then
    ([Log ERROR "Could not open video file: {}" [AStr video_path]], [])
  else if PrimFloat.eqb (CAP_PROP_FPS cap) 0%float then
    ([Log ERROR "Error: Video FPS is 0. File might be corrupt." [];
      CapRelease video_path], [])
  else
    let '(frames, fault) :=
      match frame_interval (CAP_PROP_FPS cap) interval with
      | Raise e => ([], Some e)
      | Ret stride => read_loop stride (reads cap) 0%Z []
      end in
    (match fault with
     | Some e => [Log ERROR "Error extracting frames: {}" [AExn e]]
     | None => []
     end
     ++ [CapRelease video_path;
         Log INFO "Extracted {} frames from {}"
             [AInt (Z.of_nat (length frames)); AStr video_path]],
     frames).

Definition is_release (ev : event) : bool :=
  match ev with
  | CapRelease _ => true
  | _ => false
  end.

Definition is_error (ev : event) : bool :=
  match ev with
  | Log ERROR _ _ => true
  | _ => false
  end.

(** ** Frame extraction, all paths *)

Lemma extract_frames_missing (os : host) (video_path : string) (interval : Z)
    (w : world) :
  video_path ∉ files w →
  extract_frames os video_path interval w = (w, Raise FileNotFoundError).
Proof.
  intros Hout. unfold extract_frames, bind, os_path_exists.
  by rewrite bool_decide_eq_false_2 by done.
Qed.

Lemma extract_frames_present (os : host) (video_path : string) (interval : Z)
    (w : world) :
  video_path ∈ files w →
  extract_frames os video_path interval w
  = (record (fst (frames_outcome os video_path interval)) w,
     Ret (snd (frames_outcome os video_path interval))).
Proof.
  intros Hin. unfold frames_outcome.
  destruct (isOpened (cv2_VideoCapture os video_path)) eqn:Hopen; simpl.
  - destruct (PrimFloat.eqb _ _) eqn:Hfps.
    + unfold extract_frames. unfold bind at 1, os_path_exists at 1.
      rewrite bool_decide_eq_true_2 by done. simpl.
      rewrite Hopen, Hfps. simpl. eff_unfold. unfold record. simpl.
      by rewrite <- app_assoc.
    + rewrite (extract_frames_run os video_path interval w Hin Hopen Hfps).
      by destruct (match frame_interval _ _ with Raise _ => _ | Ret _ => _ end)
        as [frames fault].
  - unfold extract_frames. unfold bind at 1, os_path_exists at 1.
    rewrite bool_decide_eq_true_2 by done. simpl.
    rewrite Hopen. simpl. by eff_unfold.
Qed.

(** X1.  [extract_frames] raises exactly when the video file does not
    exist: it then raises [FileNotFoundError] in an unchanged world.  On
    an existing file every fault of the capture or of the arithmetic is
    caught and a list is returned. *)
Theorem extract_frames_raises_iff_missing (os : host) (video_path : string)
    (interval : Z) (w : world) :
  ((∃ e, snd (extract_frames os video_path interval w) = Raise e)
   ↔ video_path ∉ files w)
  ∧ (video_path ∉ files w →
     extract_frames os video_path interval w = (w, Raise FileNotFoundError))
  ∧ (video_path ∈ files w →
     ∃ w' frames, extract_frames os video_path interval w = (w', Ret frames)).
Proof.
  split; [|split].
  - split.
    + intros [e He] Hin. by rewrite extract_frames_present in He.
    + intros Hout. exists FileNotFoundError.
      by rewrite extract_frames_missing.
  - apply extract_frames_missing.
  - intros Hin. rewrite extract_frames_present by done. by do 2 eexists.
Qed.

Lemma extract_frames_raises_iff_missing_witness :
  extract_frames demo_host "absent.mp4" 2 demo_world
  = (demo_world, Raise FileNotFoundError)
  ∧ ∃ w' frames,
      extract_frames demo_host "upload.mp4" 2 demo_world = (w', Ret frames).
Proof.
  destruct (extract_frames_raises_iff_missing demo_host "absent.mp4" 2
              demo_world) as (_ & Hmissing & _).
  destruct (extract_frames_raises_iff_missing demo_host "upload.mp4" 2
              demo_world) as (_ & _ & Hpresent).
  split; [apply Hmissing | apply Hpresent]; compute_done.
Defined.

(** X2.  On an existing file the capture is released exactly once when
    it opened, whatever happens afterwards (zero rate, a fault in the
    arithmetic, a normal end), and never when it failed to open. *)
Theorem extract_frames_releases_once (os : host) (video_path : string)
    (interval : Z) (w : world) :
  video_path ∈ files w →
  length (filter (λ ev, is_release ev = true)
            (added w (fst (extract_frames os video_path interval w))))
  = if isOpened (cv2_VideoCapture os video_path) then 1 else 0.
Proof.
  intros Hin. rewrite extract_frames_present by done. simpl.
  rewrite added_record. unfold frames_outcome.
  destruct (isOpened _); simpl; [|done].
  destruct (PrimFloat.eqb _ _); simpl; [done|].
  destruct (match frame_interval _ _ with Raise _ => _ | Ret _ => _ end)
    as [frames [e|]]; done.
Qed.

Lemma extract_frames_releases_once_witness :
  length (filter (λ ev, is_release ev = true)
            (added demo_world
               (fst (extract_frames (host_with nan_capture) "upload.mp4" 2
                       demo_world)))) = 1.
Proof.
  apply (extract_frames_releases_once (host_with nan_capture) "upload.mp4" 2
           demo_world).
  compute_done.
Defined.

Module FrameCases.

(** A capture slower than one frame in two seconds. *)
Definition slow_capture : capture :=
  {| isOpened := true; CAP_PROP_FPS := 0.25%float;
     reads := reads ntsc_capture |}.

(** A capture that does not open. *)
Definition closed_capture : capture :=
  {| isOpened := false; CAP_PROP_FPS := 30%float; reads := [] |}.

End FrameCases.
Import FrameCases.

(** X3.  When the stride [int(fps * interval)] is zero (the product is
    below one) and the capture delivers a frame, the modulo raises
    [ZeroDivisionError] at the first frame: the error is logged, the
    capture is released and no frame is returned.  With no frame to read
    the loop ends at once and nothing is logged as an error. *)
Theorem extract_frames_zero_stride (os : host) (video_path : string)
    (interval : Z) (w : world) :
  let cap := cv2_VideoCapture os video_path in
  video_path ∈ files w →
  isOpened cap = true →
  PrimFloat.eqb (CAP_PROP_FPS cap) 0%float = false →
  frame_interval (CAP_PROP_FPS cap) interval = Ret 0%Z →
  extract_frames os video_path interval w
  = (record (match reads cap with
             | [] => []
             | _ :: _ =>
                 [Log ERROR "Error extracting frames: {}"
                      [AExn ZeroDivisionError]]
             end
             ++ [CapRelease video_path;
                 Log INFO "Extracted {} frames from {}"
                     [AInt 0; AStr video_path]]) w,
     Ret []).
Proof.
  intros cap Hin Hopen Hfps Hstride.
  rewrite (extract_frames_run os video_path interval w Hin Hopen Hfps).
  fold cap. rewrite Hstride, read_loop_zero_stride.
  by destruct (reads cap).
Qed.

Lemma extract_frames_zero_stride_witness :
  extract_frames (host_with slow_capture) "upload.mp4" 2 demo_world
  = (record [Log ERROR "Error extracting frames: {}" [AExn ZeroDivisionError];
             CapRelease "upload.mp4";
             Log INFO "Extracted {} frames from {}"
                 [AInt 0; AStr "upload.mp4"]] demo_world,
     Ret []).
Proof.
  apply (extract_frames_zero_stride (host_with slow_capture) "upload.mp4" 2
           demo_world);
    [compute_done | reflexivity | reflexivity | by vm_compute].
Defined.

Lemma frame_interval_zero (fps : float) :
  frame_interval fps 0 = Ret 0%Z ∨ ∃ e, frame_interval fps 0 = Raise e.
Proof.
  unfold frame_interval, float_mul_int.
  change (float_of_int 0) with (Ret 0%float).
  unfold int_of_float. rewrite FloatAxioms.mul_spec.
  change (Prim2SF 0%float) with (S754_zero false).
  unfold SF64mul, SFmul.
  destruct (Prim2SF fps); eauto.
Qed.

(** X4.  With a sampling interval of zero, [extract_frames] returns no
    frame from any existing video, whatever rate the capture reports. *)
Theorem extract_frames_zero_interval (os : host) (video_path : string)
    (w : world) :
  video_path ∈ files w →
  snd (extract_frames os video_path 0 w) = Ret [].
Proof.
  intros Hin. rewrite extract_frames_present by done. simpl.
  unfold frames_outcome.
  destruct (isOpened _); simpl; [|done].
  destruct (PrimFloat.eqb _ _); simpl; [done|].
  destruct (frame_interval_zero (CAP_PROP_FPS (cv2_VideoCapture os video_path)))
    as [->|[e ->]]; [|done].
  rewrite read_loop_zero_stride. by destruct (reads _).
Qed.

Lemma extract_frames_zero_interval_witness :
  snd (extract_frames (host_with ntsc_capture) "upload.mp4" 0 demo_world)
  = Ret [].
Proof.
  apply (extract_frames_zero_interval (host_with ntsc_capture) "upload.mp4"
           demo_world).
  compute_done.
Defined.

(** ** How many frames are sampled, and in which order *)

Lemma sampled_snoc (stride : Z) (reads : list decoded) (d : decoded) :
  sampled stride (reads ++ [d])
  = sampled stride reads
    ++ (if (Z.of_nat (length reads) mod stride =? 0)%Z
        then [frame_of d] else []).
Proof.
  unfold sampled. rewrite imap_app, omap_app. f_equal. simpl.
  rewrite Nat.add_0_r. unfold pick.
  by destruct (Z.of_nat (length reads) mod stride =? 0)%Z.
Qed.

Lemma ceil_div_succ (n s : Z) :
  (0 ≤ n)%Z → (0 < s)%Z →
  ((n + 1 + s - 1) / s
   = (n + s - 1) / s + (if (n mod s =? 0)%Z then 1 else 0))%Z.
Proof.
  intros Hn Hs.
  pose proof (Z.div_mod n s ltac:(lia)) as Hdm.
  pose proof (Z.mod_pos_bound n s Hs) as Hb.
  assert ((n + 1 + s - 1) / s = n / s + 1)%Z as ->
    by (symmetry; apply (Z.div_unique_pos _ _ _ (n mod s)); lia).
  destruct (Z.eqb_spec (n mod s) 0) as [Hz|Hz].
  - assert ((n + s - 1) / s = n / s)%Z as ->
      by (symmetry; apply (Z.div_unique_pos _ _ _ (s - 1)); lia).
    lia.
  - assert ((n + s - 1) / s = n / s + 1)%Z as ->
      by (symmetry; apply (Z.div_unique_pos _ _ _ (n mod s - 1)); lia).
    lia.
Qed.

Lemma length_sampled (stride : Z) (reads : list decoded) :
  (0 < stride)%Z →
  Z.of_nat (length (sampled stride reads))
  = ((Z.of_nat (length reads) + stride - 1) / stride)%Z.
Proof.
  intros Hs. induction reads as [|d reads IH] using rev_ind.
  - simpl. rewrite Z.div_small; lia.
  - rewrite sampled_snoc, !length_app, !Nat2Z.inj_add, IH. simpl.
    rewrite ceil_div_succ by lia.
    by destruct (Z.of_nat (length reads) mod stride =? 0)%Z.
Qed.

(** X5.  For a positive stride [s] and a video of [n] decoded frames,
    [extract_frames] returns the ceiling of [n / s] frames: one for
    every started run of [s] frames, the first frame of the video among
    them. *)
Theorem extract_frames_count (os : host) (video_path : string)
    (interval stride : Z) (w : world) :
  let cap := cv2_VideoCapture os video_path in
  video_path ∈ files w →
  isOpened cap = true →
  PrimFloat.eqb (CAP_PROP_FPS cap) 0%float = false →
  frame_interval (CAP_PROP_FPS cap) interval = Ret stride →
  (0 < stride)%Z →
  ∃ frames,
    snd (extract_frames os video_path interval w) = Ret frames
    ∧ Z.of_nat (length frames)
      = ((Z.of_nat (length (reads cap)) + stride - 1) / stride)%Z
    ∧ head frames = frame_of <$> head (reads cap).
Proof.
  intros cap Hin Hopen Hfps Hstride Hpos.
  rewrite (extract_frames_run os video_path interval w Hin Hopen Hfps).
  fold cap. rewrite Hstride.
  pose proof (read_loop_run stride (reads cap) ltac:(lia) 0 []) as Hloop.
  change (Z.of_nat 0) with 0%Z in Hloop. rewrite Hloop. simpl.
  eexists. split; [reflexivity|]. split; [by apply length_sampled|].
  destruct (reads cap) as [|d rest]; [done|].
  unfold sampled. simpl. reflexivity.
Qed.

Lemma extract_frames_count_witness :
  ∃ frames,
    snd (extract_frames (host_with ntsc_capture) "upload.mp4" 2 demo_world)
    = Ret frames
    ∧ Z.of_nat (length frames) = 2%Z.
Proof.
  destruct (extract_frames_count (host_with ntsc_capture) "upload.mp4" 2 59
              demo_world) as (frames & Hrun & Hcount & _);
    [compute_done | reflexivity | reflexivity | by vm_compute | lia |].
  exists frames. split; [exact Hrun|]. exact Hcount.
Defined.

Lemma read_loop_sublist (stride : Z) (rest : list decoded) :
  ∀ (k : Z) (frames : list Frame),
    ∃ sub, fst (read_loop stride rest k frames) = frames ++ sub
           ∧ sub `sublist_of` map frame_of rest.
Proof.
  induction rest as [|d rest IH]; intros k frames; simpl.
  - exists []. by rewrite app_nil_r.
  - destruct (stride =? 0)%Z; simpl.
    + exists []. rewrite app_nil_r. split; [done|]. apply sublist_nil_l.
    + destruct (k mod stride =? 0)%Z.
      * destruct (IH (k + 1)%Z (frames ++ [frame_of d])) as (sub & -> & Hsub).
        exists (frame_of d :: sub). rewrite <- app_assoc. split; [done|].
        by apply sublist_skip.
      * destruct (IH (k + 1)%Z frames) as (sub & -> & Hsub).
        exists sub. split; [done|]. by apply sublist_cons.
Qed.

(** X6.  Whatever [extract_frames] returns is a subsequence of the
    decoded frames, each converted as [frame_of] does: frames are never
    reordered, repeated or made up, on any path. *)
Theorem extract_frames_subsequence (os : host) (video_path : string)
    (interval : Z) (w : world) :
  match snd (extract_frames os video_path interval w) with
  | Ret frames =>
      frames `sublist_of` map frame_of (reads (cv2_VideoCapture os video_path))
  | Raise _ => True
  end.
Proof.
  destruct (decide (video_path ∈ files w)) as [Hin|Hout];
    [|by rewrite extract_frames_missing].
  rewrite extract_frames_present by done. simpl. unfold frames_outcome.
  destruct (isOpened _); simpl; [|apply sublist_nil_l].
  destruct (PrimFloat.eqb _ _); simpl; [apply sublist_nil_l|].
  destruct (frame_interval _ _) as [stride|e]; simpl; [|apply sublist_nil_l].
  destruct (read_loop_sublist stride
              (reads (cv2_VideoCapture os video_path)) 0 [])
    as (sub & Hfst & Hsub).
  destruct (read_loop _ _ _ _) as [frames fault]. simpl in *. by subst.
Qed.

(** ** Audio extraction, all paths *)

(** What [extract_audio_segments] adds to the trace and returns on an
    existing file. *)
Definition audio_all (os : host) (self : VideoProcessor) (video_path : string)
    : list event * list Segment :=
  let failed e :=
    [Log ERROR "Error extracting/transcribing audio: {}" [AExn e];
     Log INFO "Extracted {} audio segments from {}"
         [AInt 0; AStr video_path]] in
  match moviepy_VideoFileClip os video_path with
  | Raise e => (failed e, [])
  | Ret video =>
      if negb (has_audio video) then
        ([Log WARNING "No audio track found in {}" [AStr video_path];
          ClipClose video_path], [])
      else
        match mkstemp_name os with
        | Raise e => (failed e, [])
        | Ret name => audio_outcome os self video_path (name +:+ ".mp3")
        end
  end.

(** The first fault of the audio extraction, if any. *)
Definition audio_fault (os : host) (self : VideoProcessor)
    (video_path : string) : option exn :=
  match moviepy_VideoFileClip os video_path with
  | Raise e => Some e
  | Ret video =>
      if negb (has_audio video) then None
      else
        match mkstemp_name os with
        | Raise e => Some e
        | Ret name =>
            match write_audiofile_fault os (name +:+ ".mp3") with
            | Some e => Some e
            | None =>
                match whisper_model self (name +:+ ".mp3") with
                | Raise e => Some e
                | Ret _ => None
                end
            end
        end
  end.

(** Whether the audio extraction gets to create its temporary file. *)
Definition creates_temp (os : host) (video_path : string) : option string :=
  match moviepy_VideoFileClip os video_path with
  | Raise _ => None
  | Ret video =>
      if negb (has_audio video) then None
      else
        match mkstemp_name os with
        | Raise _ => None
        | Ret name => Some (name +:+ ".mp3")
        end
  end.

Lemma extract_audio_segments_missing (os : host) (self : VideoProcessor)
    (video_path : string) (w : world) :
  video_path ∉ files w →
  extract_audio_segments os self video_path w = (w, Raise FileNotFoundError).
Proof.
  intros Hout. unfold extract_audio_segments, bind, os_path_exists.
  by rewrite bool_decide_eq_false_2 by done.
Qed.

Lemma extract_audio_segments_present (os : host) (self : VideoProcessor)
    (video_path : string) (w : world) :
  video_path ∈ files w →
  ∃ w', extract_audio_segments os self video_path w
        = (w', Ret (snd (audio_all os self video_path)))
        ∧ added w w' = fst (audio_all os self video_path)
        ∧ match creates_temp os video_path with
          | None => files w' = files w
          | Some temp =>
              (temp ∈ files w' ↔ os_remove_fails os temp = true)
              ∧ (∀ p, p ≠ temp → p ∈ files w' ↔ p ∈ files w)
          end.
Proof.
  intros Hin. unfold audio_all, creates_temp.
  destruct (moviepy_VideoFileClip os video_path) as [[[]]|e] eqn:Hclip.
  - destruct (mkstemp_name os) as [name|e] eqn:Hname; simpl.
    + destruct (extract_audio_segments_run os self video_path name w
                  Hin Hclip Hname) as (w' & Hrun & Hadd & Hf & Ho).
      by exists w'.
    + unfold extract_audio_segments, mkstemp, log_audio_error.
      eff_unfold. simpl. rewrite bool_decide_eq_true_2 by done. simpl.
      rewrite Hclip, Hname. simpl.
      eexists. split; [reflexivity|]. unfold added. simpl.
      by rewrite <- !app_assoc, drop_app_length.
  - unfold extract_audio_segments. eff_unfold. simpl.
    rewrite bool_decide_eq_true_2 by done. simpl. rewrite Hclip. simpl.
    eexists. split; [reflexivity|]. unfold added. simpl.
    by rewrite <- !app_assoc, drop_app_length.
  - unfold extract_audio_segments, log_audio_error. eff_unfold. simpl.
    rewrite bool_decide_eq_true_2 by done. simpl. rewrite Hclip. simpl.
    eexists. split; [reflexivity|]. unfold added. simpl.
    by rewrite <- !app_assoc, drop_app_length.
Qed.

Module AudioCases.

(** A host whose video has no audio track. *)
Definition silent_host : host :=
  {| cv2_VideoCapture := λ _, demo_capture;
     moviepy_VideoFileClip := λ _, Ret {| has_audio := false |};
     mkstemp_name := Ret "/tmp/tmpk3v9";
     write_audiofile_fault := λ _, None;
     os_remove_fails := λ _, false |}.

(** A host on which the audio track cannot be written out. *)
Definition unwritable_host : host :=
  {| cv2_VideoCapture := λ _, demo_capture;
     moviepy_VideoFileClip := λ _, Ret {| has_audio := true |};
     mkstemp_name := Ret "/tmp/tmpk3v9";
     write_audiofile_fault := λ _, Some OSError;
     os_remove_fails := λ _, false |}.

End AudioCases.
Import AudioCases.

(** X7.  [extract_audio_segments] raises exactly when the video file
    does not exist: it then raises [FileNotFoundError] in an unchanged
    world.  On an existing file it returns a list whatever the clip
    reader, the temporary file, the writer, the transcriber or the
    removal do. *)
Theorem extract_audio_segments_raises_iff_missing (os : host)
    (self : VideoProcessor) (video_path : string) (w : world) :
  ((∃ e, snd (extract_audio_segments os self video_path w) = Raise e)
   ↔ video_path ∉ files w)
  ∧ (video_path ∉ files w →
     extract_audio_segments os self video_path w
     = (w, Raise FileNotFoundError))
  ∧ (video_path ∈ files w →
     ∃ w' segments_data,
       extract_audio_segments os self video_path w = (w', Ret segments_data)).
Proof.
  split; [|split].
  - split.
    + intros [e He] Hin.
      destruct (extract_audio_segments_present os self video_path w Hin)
        as (w' & Hrun & _).
      by rewrite Hrun in He.
    + intros Hout. exists FileNotFoundError.
      by rewrite extract_audio_segments_missing.
  - apply extract_audio_segments_missing.
  - intros Hin.
    destruct (extract_audio_segments_present os self video_path w Hin)
      as (w' & Hrun & _).
    by do 2 eexists.
Qed.

Lemma extract_audio_segments_raises_iff_missing_witness :
  extract_audio_segments unwritable_host demo_processor "absent.mp4" demo_world
  = (demo_world, Raise FileNotFoundError)
  ∧ ∃ w' segments_data,
      extract_audio_segments unwritable_host demo_processor "upload.mp4"
        demo_world = (w', Ret segments_data).
Proof.
  destruct (extract_audio_segments_raises_iff_missing unwritable_host
              demo_processor "absent.mp4" demo_world) as (_ & Hmissing & _).
  destruct (extract_audio_segments_raises_iff_missing unwritable_host
              demo_processor "upload.mp4" demo_world) as (_ & _ & Hpresent).
  split; [apply Hmissing | apply Hpresent]; compute_done.
Defined.

(** X8.  For a video without audio track [extract_audio_segments]
    returns the empty list after a warning and the closing of the clip:
    no error is logged, no temporary file is made, the transcriber is
    not called and the disk is left as it was. *)
Theorem extract_audio_segments_no_track (os : host) (self : VideoProcessor)
    (video_path : string) (w : world) :
  video_path ∈ files w →
  moviepy_VideoFileClip os video_path = Ret {| has_audio := false |} →
  extract_audio_segments os self video_path w
  = (record [Log WARNING "No audio track found in {}" [AStr video_path];
             ClipClose video_path] w,
     Ret []).
Proof.
  intros Hin Hclip. unfold extract_audio_segments. eff_unfold. simpl.
  rewrite bool_decide_eq_true_2 by done. simpl. rewrite Hclip. simpl.
  unfold record. simpl. by rewrite <- app_assoc.
Qed.

Lemma extract_audio_segments_no_track_witness :
  extract_audio_segments silent_host demo_processor "upload.mp4" demo_world
  = (record [Log WARNING "No audio track found in {}" [AStr "upload.mp4"];
             ClipClose "upload.mp4"] demo_world,
     Ret []).
Proof.
  apply (extract_audio_segments_no_track silent_host demo_processor
           "upload.mp4" demo_world);
    [compute_done | reflexivity].
Defined.

(** X9.  When any step of the audio extraction raises (opening the
    clip, making the temporary file, writing the audio, transcribing),
    the call returns the empty list and logs that exception as its one
    error; when no step raises, it logs no error. *)
Theorem extract_audio_segments_fault (os : host) (self : VideoProcessor)
    (video_path : string) (w : world) :
  video_path ∈ files w →
  let run := extract_audio_segments os self video_path w in
  match audio_fault os self video_path with
  | Some e =>
      snd run = Ret []
      ∧ filter (λ ev, is_error ev = true) (added w (fst run))
        = [Log ERROR "Error extracting/transcribing audio: {}" [AExn e]]
  | None => filter (λ ev, is_error ev = true) (added w (fst run)) = []
  end.
Proof.
  intros Hin run. subst run.
  destruct (extract_audio_segments_present os self video_path w Hin)
    as (w' & Hrun & Hadd & _).
  rewrite Hrun. simpl. rewrite Hadd.
  unfold audio_fault, audio_all, audio_outcome. simpl.
  destruct (moviepy_VideoFileClip os video_path) as [[[]]|e]; simpl;
    [|done..].
  destruct (mkstemp_name os) as [name|e]; simpl; [|done].
  destruct (write_audiofile_fault os _) as [e|]; simpl; [done|].
  by destruct (whisper_model self _) as [result|e].
Qed.

Lemma extract_audio_segments_fault_witness :
  snd (extract_audio_segments unwritable_host demo_processor "upload.mp4"
         demo_world) = Ret []
  ∧ filter (λ ev, is_error ev = true)
      (added demo_world
         (fst (extract_audio_segments unwritable_host demo_processor
                 "upload.mp4" demo_world)))
    = [Log ERROR "Error extracting/transcribing audio: {}" [AExn OSError]].
Proof.
  apply (extract_audio_segments_fault unwritable_host demo_processor
           "upload.mp4" demo_world).
  compute_done.
Defined.

(** A text without whitespace at either end. *)
Definition clean_text (s : string) : Prop :=
  (∀ c t, s = String c t → isspace c = false)
  ∧ match rev (list_ascii_of_string s) with
    | [] => True
    | c :: _ => isspace c = false
    end.

(** X10.  Every segment [extract_audio_segments] returns, on any path,
    has a text that neither begins nor ends with whitespace. *)
Theorem extract_audio_segments_clean (os : host) (self : VideoProcessor)
    (video_path : string) (w : world) :
  match snd (extract_audio_segments os self video_path w) with
  | Ret segments_data => Forall (λ segment, clean_text (text segment))
                                segments_data
  | Raise _ => True
  end.
Proof.
  destruct (decide (video_path ∈ files w)) as [Hin|Hout];
    [|by rewrite extract_audio_segments_missing].
  destruct (extract_audio_segments_present os self video_path w Hin)
    as (w' & -> & _).
  simpl. unfold audio_all, audio_outcome.
  destruct (moviepy_VideoFileClip os video_path) as [[[]]|e]; simpl;
    [|done..].
  destruct (mkstemp_name os) as [name|e]; simpl; [|done].
  destruct (write_audiofile_fault os _) as [e|]; simpl; [done|].
  destruct (whisper_model self _) as [result|e]; simpl; [|done].
  apply Forall_fmap, Forall_forall. intros segment _. simpl. split.
  - intros c t. apply strip_head.
  - apply strip_last.
Qed.

(** ** The embedding engine, on failure *)

(** X11.  [encode_images] and [encode_text] never raise.  When the model
    raises on a non-empty batch, they have called it once, log that
    exception as an error and return the empty list. *)
Theorem encode_never_raises (self : EmbeddingEngine) (w : world) :
  (∀ images, ∃ w' out, encode_images self images w = (w', Ret out))
  ∧ (∀ text_list, ∃ w' out, encode_text self text_list w = (w', Ret out))
  ∧ (∀ images e,
       images ≠ [] → model_encode self (Images images) = Raise e →
       encode_images self images w
       = (record [ModelEncode (length images);
                  Log ERROR "Error encoding images: {}" [AExn e]] w, Ret []))
  ∧ (∀ text_list e,
       text_list ≠ [] → model_encode self (Texts text_list) = Raise e →
       encode_text self text_list w
       = (record [ModelEncode (length text_list);
                  Log ERROR "Error encoding text: {}" [AExn e]] w, Ret [])).
Proof.
  split; [|split; [|split]].
  - intros [|x images]; [by do 2 eexists|].
    unfold encode_images, encode. eff_unfold. simpl.
    destruct (model_encode self _); by do 2 eexists.
  - intros [|x text_list]; [by do 2 eexists|].
    unfold encode_text, encode. eff_unfold. simpl.
    destruct (model_encode self _); by do 2 eexists.
  - intros [|x images] e Hne Hm; [done|].
    unfold encode_images, encode. eff_unfold. simpl. rewrite Hm. simpl.
    unfold record. simpl. by rewrite <- app_assoc.
  - intros [|x text_list] e Hne Hm; [done|].
    unfold encode_text, encode. eff_unfold. simpl. rewrite Hm. simpl.
    unfold record. simpl. by rewrite <- app_assoc.
Qed.

Lemma encode_never_raises_witness :
  encode_images text_only_engine [image demo_frame] demo_world
  = (record [ModelEncode 1;
             Log ERROR "Error encoding images: {}" [AExn RuntimeError]]
            demo_world, Ret []).
Proof.
  destruct (encode_never_raises text_only_engine demo_world)
    as (_ & _ & Himages & _).
  apply (Himages [image demo_frame] RuntimeError); [done | reflexivity].
Defined.

(** ** The store: collection and construction *)

Definition is_create (ev : event) : bool :=
  match ev with
  | CreateCollection _ _ => true
  | _ => false
  end.

Lemma existsb_name (name : string) (names : list string) :
  existsb (λ n, String.eqb n name) names = true ↔ name ∈ names.
Proof.
  rewrite existsb_exists. split.
  - intros (n & Hin & ->%String.eqb_eq). by apply list_elem_of_In.
  - intros Hin. exists name. split; [by apply list_elem_of_In|].
    apply String.eqb_refl.
Qed.

(** X12.  [_ensure_collection_exists] never raises.  It asks the client
    for the collections once; it creates a collection only when that
    call succeeded and the name of the store is not listed, and then it
    creates that name with 512 dimensions; when the name is listed or
    the listing fails it creates nothing. *)
Theorem ensure_collection_creates_iff_absent (self : VectorStore) (w : world) :
  ∃ evs,
    _ensure_collection_exists self w = (record evs w, Ret tt)
    ∧ head evs = Some GetCollections
    ∧ filter (λ ev, is_create ev = true) evs
      = match get_collections (client self) with
        | Ret names =>
            if bool_decide (collection_name self ∈ names) then []
            else [CreateCollection (collection_name self) 512]
        | Raise _ => []
        end.
Proof.
  unfold _ensure_collection_exists. eff_unfold. simpl.
  destruct (get_collections (client self)) as [names|e]; simpl.
  - destruct (existsb _ names) eqn:Hex; simpl.
    + apply existsb_name in Hex.
      rewrite bool_decide_eq_true_2 by done.
      eexists [_; _]. unfold record. simpl.
      by rewrite <- !app_assoc.
    + assert (collection_name self ∉ names) as Hout.
      { intros Hin%existsb_name. congruence. }
      rewrite bool_decide_eq_false_2 by done.
      destruct (create_collection_fault _ _); simpl.
      * eexists [_; _; _; _]. unfold record. simpl.
        by rewrite <- !app_assoc.
      * eexists [_; _; _; _]. unfold record. simpl.
        by rewrite <- !app_assoc.
  - eexists [_; _]. unfold record. simpl. by rewrite <- !app_assoc.
Qed.

(** Where [__init__] connects: a local store for a non-empty path, else
    the server at the host and port given or defaulted. *)
Definition connection_target (host : option string) (port : option Z)
    (path : option string) : string + string * Z :=
  match path with
  | Some p =>
      if String.eqb p "" then inr (default "localhost" host, default 6333%Z port)
      else inl p
  | None => inr (default "localhost" host, default 6333%Z port)
  end.

(** X13.  [VectorStore.__init__] raises exactly when the client cannot
    be constructed: it logs the failure and raises the same exception
    again.  Otherwise it returns a store with the name given (or
    "neuro_stream"), the engine given and that client; a failure while
    checking the collection does not prevent it.  An empty path counts
    as no path: the server at the host and port, by default
    localhost:6333, is used. *)
Theorem init_raises_iff_connect_fails
    (connect : string + string * Z → outcome QdrantClient)
    (name : option string) (engine : option EmbeddingEngine)
    (host : option string) (port : option Z) (path : option string)
    (w : world) :
  match connect (connection_target host port path) with
  | Raise e =>
      __init__ connect name engine host port path w
      = (record [Log ERROR "Failed to connect to Qdrant: {}" [AExn e]] w,
         Raise e)
  | Ret c =>
      ∃ w', __init__ connect name engine host port path w
            = (w', Ret {| collection_name := default "neuro_stream" name;
                          embedding_engine := engine;
                          client := c |})
  end.
Proof.
  unfold __init__, connection_target, try_except. unfold bind at 1.
  destruct path as [p|]; simpl.
  - destruct (String.eqb p "") eqn:Hp; simpl.
    + unfold bind at 1, lift at 1.
      destruct (connect _) as [c|e]; simpl.
      * unfold bind at 1, log at 1, emit at 1. simpl. unfold ret at 1.
        unfold bind at 1.
        match goal with |- context [_ensure_collection_exists ?s ?w1] =>
          destruct (ensure_collection_returns s w1) as (w2 & ->) end.
        simpl. by eexists.
      * by eff_unfold.
    + unfold bind at 1, lift at 1.
      destruct (connect _) as [c|e]; simpl.
      * unfold bind at 1, log at 1, emit at 1. simpl. unfold ret at 1.
        unfold bind at 1.
        match goal with |- context [_ensure_collection_exists ?s ?w1] =>
          destruct (ensure_collection_returns s w1) as (w2 & ->) end.
        simpl. by eexists.
      * by eff_unfold.
  - unfold bind at 1, lift at 1.
    destruct (connect _) as [c|e]; simpl.
    + unfold bind at 1, log at 1, emit at 1. simpl. unfold ret at 1.
      unfold bind at 1.
      match goal with |- context [_ensure_collection_exists ?s ?w1] =>
        destruct (ensure_collection_returns s w1) as (w2 & ->) end.
      simpl. by eexists.
    + by eff_unfold.
Qed.

(** ** The batch [index_video] upserts *)

Module IndexCases.

(** An index that refuses every write. *)
Definition refusing_client : QdrantClient :=
  {| get_collections := Ret ["neuro_stream"];
     create_collection_fault := λ _, None;
     upsert_fault := λ _ _, Some RuntimeError;
     query_points := λ _ _ _, Ret [];
     refuses_vector := λ _, true |}.

Definition refusing_store : VectorStore :=
  {| collection_name := "neuro_stream";
     embedding_engine := Some demo_engine;
     client := refusing_client |}.

End IndexCases.
Import IndexCases.

Lemma imap_point_vectors {A} (f : nat → string) (g : A → pyval)
    (h : A → gmap string pyval) (l : list A) :
  map vector (imap (λ k x, {| id := f k; vector := g x; payload := h x |}) l)
  = map g l.
Proof.
  revert f. induction l as [|x l IH]; intros f; simpl; [done|].
  f_equal. apply (IH (f ∘ S)).
Qed.

Lemma imap_point_ids {A} (ent : nat → string) (n : nat) (g : A → pyval)
    (h : A → gmap string pyval) (l : list A) :
  map id (imap (λ k x, {| id := ent (n + k); vector := g x;
                          payload := h x |}) l)
  = map ent (seq n (length l)).
Proof.
  revert n. induction l as [|x l IH]; intros n; simpl; [done|].
  rewrite Nat.add_0_r. f_equal. rewrite <- IH. f_equal.
  apply imap_ext. intros k y _. simpl. do 2 f_equal. lia.
Qed.

(** X14.  When [PointStruct] accepts the vector of every item that has
    one, as it does every list of floats, [index_video] returns, and
    the batch it upserts holds one point for every item whose vector is
    non-empty, the visual items first and then the audio items, each in
    the order given and with the vector of its item; items without
    vector are left out.  The call makes at most one upsert.  When a
    vector is refused, the call raises [ValueError] and makes no
    upsert. *)
Theorem index_video_batch (self : VectorStore) (video_id : string)
    (visual_vectors audio_vectors : list (gmap string pyval))
    (metadata : gmap string pyval) (w : world) :
  let run := index_video self video_id visual_vectors audio_vectors
               metadata w in
  (valid_vectors self (visual_vectors ++ audio_vectors) = true →
   ∃ points,
     snd run = Ret tt
     ∧ added w (fst run) = index_events self video_id points
     ∧ map vector points
       = map (λ item, dict_get item "vector")
             (filter has_vector (visual_vectors ++ audio_vectors))
     ∧ length points
       = length (filter has_vector visual_vectors)
         + length (filter has_vector audio_vectors)
     ∧ (length (filter (λ ev, is_upsert ev = true) (added w (fst run)))
        ≤ 1)%nat)
  ∧ (valid_vectors self (visual_vectors ++ audio_vectors) = false →
     snd run = Raise ValueError
     ∧ filter (λ ev, is_upsert ev = true) (added w (fst run)) = []).
Proof.
  intros run. subst run. split; intros Hvalid.
  - rewrite index_video_built by done. simpl.
    rewrite added_record_draw. eexists. split; [reflexivity|].
    split; [reflexivity|]. split; [|split; [apply length_built|]].
    + unfold built_points, visual_built, audio_built.
      by rewrite filter_app, !map_app, !imap_point_vectors.
    + unfold index_events.
      destruct (built_points _ _ _ _ _ _); simpl; [lia|].
      destruct (upsert_fault _ _ _); simpl; lia.
  - destruct (index_video_refused self video_id visual_vectors audio_vectors
                metadata w Hvalid) as [n ->].
    simpl. by rewrite added_draw.
Qed.

Lemma index_video_batch_witness :
  (∃ points,
     added demo_world
       (fst (index_video demo_store "vid"
               [visual_entry [1%float; 0%float] demo_frame; ∅]
               [audio_entry [0%float; 1%float] demo_segment] ∅ demo_world))
     = index_events demo_store "vid" points
     ∧ map vector points
       = [floats [1%float; 0%float]; floats [0%float; 1%float]])
  ∧ snd (index_video demo_store "vid" [<["vector" := PInt 5]> ∅] [] ∅
           demo_world)
    = Raise ValueError.
Proof.
  split.
  - destruct (index_video_batch demo_store "vid"
                [visual_entry [1%float; 0%float] demo_frame; ∅]
                [audio_entry [0%float; 1%float] demo_segment] ∅ demo_world)
      as [Hvalid _].
    destruct (Hvalid eq_refl) as (points & _ & Hev & Hvec & _).
    exists points. split; [exact Hev|]. rewrite Hvec. by vm_compute.
  - destruct (index_video_batch demo_store "vid" [<["vector" := PInt 5]> ∅]
                [] ∅ demo_world) as [_ Hrefused].
    exact (proj1 (Hrefused eq_refl)).
Defined.

(** X15.  When [PointStruct] accepts every vector, every point of the
    batch gets an identifier of its own draw: the [k]-th point the
    [k]-th draw after those made before the call, and the call leaves
    the count of draws advanced by the size of the batch, so that a
    later call continues after them. *)
Theorem index_video_ids (self : VectorStore) (video_id : string)
    (visual_vectors audio_vectors : list (gmap string pyval))
    (metadata : gmap string pyval) (w : world) :
  valid_vectors self (visual_vectors ++ audio_vectors) = true →
  let run := index_video self video_id visual_vectors audio_vectors
               metadata w in
  ∃ points,
    added w (fst run) = index_events self video_id points
    ∧ map id points = map (entropy w) (seq (drawn w) (length points))
    ∧ drawn (fst run) = length points + drawn w
    ∧ entropy (fst run) = entropy w.
Proof.
  intros Hvalid run. subst run. rewrite index_video_built by done. simpl.
  rewrite added_record_draw. eexists. split; [reflexivity|].
  split; [|done].
  rewrite length_built. unfold built_points, visual_built, audio_built.
  by rewrite map_app, !imap_point_ids, seq_app, map_app.
Qed.

Lemma index_video_ids_witness :
  ∃ points,
    added demo_world
      (fst (index_video demo_store "vid"
              [visual_entry [1%float; 0%float] demo_frame]
              [audio_entry [0%float; 1%float] demo_segment] ∅ demo_world))
    = index_events demo_store "vid" points
    ∧ map id points = ["point-0"; "point-1"].
Proof.
  destruct (index_video_ids demo_store "vid"
              [visual_entry [1%float; 0%float] demo_frame]
              [audio_entry [0%float; 1%float] demo_segment] ∅ demo_world
              eq_refl) as (points & Hev & Hids & _).
  exists points. split; [exact Hev|].
  assert (length points = 2) as Hlen.
  { apply (f_equal (filter (λ ev, is_upsert ev = true))) in Hev.
    vm_compute in Hev. destruct points as [|p [|q [|r rest]]];
      try discriminate. reflexivity. }
  rewrite Hids, Hlen. reflexivity.
Defined.

(** X16.  When [PointStruct] accepts every vector and the index refuses
    the batch, [index_video] still returns normally: the one upsert is
    followed by an error in the log and nothing else; the batch is not
    sent again. *)
Theorem index_video_swallows_upsert_failure (self : VectorStore)
    (video_id : string)
    (visual_vectors audio_vectors : list (gmap string pyval))
    (metadata : gmap string pyval) (w : world) (e : exn) :
  let points := built_points video_id metadata (entropy w) (drawn w)
                  visual_vectors audio_vectors in
  valid_vectors self (visual_vectors ++ audio_vectors) = true →
  points ≠ [] →
  upsert_fault (client self) (collection_name self) points = Some e →
  index_video self video_id visual_vectors audio_vectors metadata w
  = (record [Upsert (collection_name self) points;
             Log ERROR "Failed to upsert points: {}" [AExn e]]
            (draw (length points) w),
     Ret tt).
Proof.
  intros points Hvalid Hne Hfault. rewrite index_video_built by done.
  fold points.
  unfold index_events. destruct points as [|p pts] eqn:Hp; [done|].
  by rewrite Hfault.
Qed.

Lemma index_video_swallows_upsert_failure_witness :
  snd (index_video refusing_store "vid"
         [visual_entry [1%float; 0%float] demo_frame] [] ∅ demo_world)
  = Ret tt
  ∧ filter (λ ev, is_error ev = true)
      (added demo_world
         (fst (index_video refusing_store "vid"
                 [visual_entry [1%float; 0%float] demo_frame] [] ∅
                 demo_world)))
    = [Log ERROR "Failed to upsert points: {}" [AExn RuntimeError]].
Proof.
  rewrite (index_video_swallows_upsert_failure refusing_store "vid"
             [visual_entry [1%float; 0%float] demo_frame] [] ∅ demo_world
             RuntimeError); [|reflexivity|by vm_compute|reflexivity].
  split; [reflexivity|]. by vm_compute.
Defined.

(** ** The query path, further *)


Module SearchCases.



End SearchCases.
Import SearchCases.



(** The keys of a result of [search]. *)
Definition result_keys : gset string :=
  {["score"; "timestamp"; "video_id"; "type"; "text"]}.

Lemma mapM_formatted_total (hits : list ScoredPoint) :
  Forall (λ hit, is_Some (hit_payload hit)) hits →
  ∃ results, mapM formatted hits = Some results.
Proof.
  intros Hall. apply mapM_is_Some. eapply Forall_impl; [exact Hall|].
  intros hit [pl Hpl]. unfold compose, formatted. rewrite Hpl. by eexists.
Qed.

(** X18.  When the query is embedded, the index answers and every hit
    has a payload, [search] has sent the first vector of the embedding
    and [top_k] unchanged to the index, and it returns one dictionary
    for each hit, in the order of the hits, with exactly the keys
    [score], [timestamp], [video_id], [type] and [text]: the score of
    the hit and, under each of the four other keys, the value the
    payload holds under that key, [None] for a key the payload lacks. *)
Theorem search_results_follow_hits (self : VectorStore)
    (engine : EmbeddingEngine) (query_text : string) (top_k : Z) (w : world)
    (query_vector : list float) (rest : list (list float))
    (hits : list ScoredPoint) :
  embedding_engine self = Some engine →
  model_encode engine (Texts [query_text]) = Ret (query_vector :: rest) →
  query_points (client self) (collection_name self) query_vector top_k
  = Ret hits →
  Forall (λ hit, is_Some (hit_payload hit)) hits →
  ∃ results,
    search self query_text top_k w
    = (record [ModelEncode 1;
               QueryPoints (collection_name self) query_vector top_k] w,
       Ret results)
    ∧ Forall2 (λ hit r,
                 ∃ pl, hit_payload hit = Some pl
                   ∧ dom r = result_keys
                   ∧ r !! "score" = Some (PFloat (score hit))
                   ∧ r !! "timestamp" = Some (dict_get pl "timestamp")
                   ∧ r !! "video_id" = Some (dict_get pl "video_id")
                   ∧ r !! "type" = Some (dict_get pl "type")
                   ∧ r !! "text" = Some (dict_get pl "text"))
              hits results.
Proof.
  intros Heng Hm Hq Hall.
  destruct (mapM_formatted_total hits Hall) as [results Hres].
  exists results. split.
  - rewrite (search_run self engine) by done.
    unfold search_outcome. by rewrite Hm, Hq, Hres.
  - apply mapM_Some in Hres. eapply Forall2_impl; [exact Hres|].
    intros hit r Hr. unfold formatted in Hr.
    destruct (hit_payload hit) as [pl|]; [|done].
    injection Hr as <-. exists pl. split; [done|].
    split; [|done]. unfold result_dict, result_keys.
    rewrite !dom_insert_L, dom_empty_L. set_solver.
Qed.

Lemma search_results_follow_hits_witness :
  ∃ results,
    snd (search demo_store "a red car" 5 demo_world) = Ret results
    ∧ length results = 2
    ∧ Forall (λ r, dom r = result_keys) results
    ∧ Forall2 (λ hit r,
                 ∃ pl, hit_payload hit = Some pl
                   ∧ r !! "text" = Some (dict_get pl "text"))
              demo_hits results.
Proof.
  destruct (search_results_follow_hits demo_store demo_engine "a red car" 5
              demo_world [1%float; 0%float] [] demo_hits)
    as (results & Hrun & Hall);
    [reflexivity | reflexivity | reflexivity | |].
  - repeat constructor; by eexists.
  - exists results. split; [by rewrite Hrun|]. split; [|split].
    + by rewrite <- (Forall2_length _ _ _ Hall).
    + eapply Forall2_Forall_r; [exact Hall|]. apply Forall_forall.
      intros hit _ r (pl & _ & Hdom & _). exact Hdom.
    + eapply Forall2_impl; [exact Hall|].
      intros hit r (pl & Hpl & _ & _ & _ & _ & _ & Htext).
      exists pl. by split.
Defined.

(** ** Pairing items with embeddings *)

Lemma pair_up_run {A} (entry : list float → A → gmap string pyval)
    (embeddings : list (list float)) (xs : list A) :
  ∀ (i : nat) (data : list (gmap string pyval)) (w : world),
    pair_up entry embeddings i xs data w
    = (w, if bool_decide (i + length xs ≤ length embeddings)%nat
          then Ret (data ++ zip_with entry (drop i embeddings) xs)
          else Raise IndexError)
      ∨ xs = [] ∧ pair_up entry embeddings i xs data w = (w, Ret data).
Proof.
  induction xs as [|x rest IH]; intros i data w; [by right|]. left. simpl.
  destruct (embeddings !! i) as [v|] eqn:Hi.
  - pose proof (lookup_lt_Some _ _ _ Hi) as Hlt.
    rewrite (drop_S _ _ _ Hi). simpl.
    destruct (IH (S i) (data ++ [entry v x]) w) as [->|[-> ->]].
    + rewrite <- app_assoc. simpl.
      destruct (decide (S i + length rest ≤ length embeddings)%nat).
      * rewrite !bool_decide_eq_true_2 by lia. done.
      * rewrite !bool_decide_eq_false_2 by lia. done.
    + rewrite bool_decide_eq_true_2 by (simpl; lia).
      by destruct (drop (S i) embeddings).
  - apply lookup_ge_None in Hi.
    by rewrite bool_decide_eq_false_2 by (simpl; lia).
Qed.

(** Pairing from the first embedding on, with nothing gathered yet. *)
Lemma pair_up_zip {A} (entry : list float → A → gmap string pyval)
    (embeddings : list (list float)) (xs : list A) (w : world) :
  pair_up entry embeddings 0 xs [] w
  = (w, if bool_decide (length xs ≤ length embeddings)%nat
        then Ret (zip_with entry embeddings xs)
        else Raise IndexError).
Proof.
  destruct (pair_up_run entry embeddings xs 0 [] w) as [->|[-> ->]].
  - done.
  - rewrite bool_decide_eq_true_2 by (simpl; lia).
    by destruct embeddings.
Qed.

(** X19.  Pairing the items with a list of embeddings meets the
    subscript [embeddings[i]] for each item and changes nothing else.
    When it returns, it returns one entry for each item, the [i]-th
    built from the [i]-th item and the [i]-th embedding (embeddings
    beyond the last item are ignored); it raises, and then
    [IndexError], exactly when there are fewer embeddings than items. *)
Theorem pair_up_spec {A} (entry : list float → A → gmap string pyval)
    (embeddings : list (list float)) (xs : list A) (w : world) :
  ∃ out,
    pair_up entry embeddings 0 xs [] w = (w, out)
    ∧ match out with
      | Ret data =>
          length data = length xs
          ∧ ∀ i x, xs !! i = Some x →
              ∃ v, embeddings !! i = Some v ∧ data !! i = Some (entry v x)
      | Raise e => e = IndexError ∧ (length embeddings < length xs)%nat
      end.
Proof.
  rewrite pair_up_zip.
  destruct (decide (length xs ≤ length embeddings)%nat) as [Hle|Hlt].
  - rewrite bool_decide_eq_true_2 by done. eexists. split; [done|].
    split; [rewrite length_zip_with; lia|].
    intros i x Hx. pose proof (lookup_lt_Some _ _ _ Hx) as Hi.
    destruct (lookup_lt_is_Some_2 embeddings i) as [v Hv]; [lia|].
    exists v. split; [done|]. by rewrite lookup_zip_with, Hv, Hx.
  - rewrite bool_decide_eq_false_2 by done. eexists. split; [done|].
    split; [done|lia].
Qed.

(** ** Ingestion and the uploaded file *)

(** A computation that leaves the file [path] on disk. *)
Definition keeps (path : string) {A} (m : M A) : Prop :=
  ∀ w, path ∈ files w → path ∈ files (fst (m w)).

(** A computation that leaves the file [path] on disk when it raises. *)
Definition keeps_on_raise (path : string) {A} (m : M A) : Prop :=
  ∀ w, path ∈ files w →
       match snd (m w) with
       | Raise _ => path ∈ files (fst (m w))
       | Ret _ => True
       end.

Section Keeps.

Variable path : string.

Lemma keeps_ret {A} (a : A) : keeps path (ret a).
Proof. by intros w Hin. Qed.

Lemma keeps_raise {A} (e : exn) : keeps path (@raise A e).
Proof. by intros w Hin. Qed.

Lemma keeps_lift {A} (o : outcome A) : keeps path (lift o).
Proof. by intros w Hin. Qed.

Lemma keeps_emit (ev : event) : keeps path (emit ev).
Proof. by intros w Hin. Qed.

Lemma keeps_log (lvl : level) (fmt : string) (args : list logarg) :
  keeps path (log lvl fmt args).
Proof. by intros w Hin. Qed.

Lemma keeps_bind {A B} (m : M A) (k : A → M B) :
  keeps path m → (∀ a, keeps path (k a)) → keeps path (bind m k).
Proof.
  intros Hm Hk w Hin. unfold bind. specialize (Hm w Hin).
  destruct (m w) as [w1 [a|e]]; simpl in *; [by apply Hk | done].
Qed.

Lemma keeps_try_except {A} (m : M A) (h : exn → M A) :
  keeps path m → (∀ e, keeps path (h e)) → keeps path (try_except m h).
Proof.
  intros Hm Hh w Hin. unfold try_except. specialize (Hm w Hin).
  destruct (m w) as [w1 [a|e]]; simpl in *; [done | by apply Hh].
Qed.

Lemma keeps_weaken {A} (m : M A) : keeps path m → keeps_on_raise path m.
Proof. intros Hm w Hin. specialize (Hm w Hin). by destruct (snd (m w)). Qed.

Lemma keeps_on_raise_bind {A B} (m : M A) (k : A → M B) :
  keeps path m → (∀ a, keeps_on_raise path (k a)) →
  keeps_on_raise path (bind m k).
Proof.
  intros Hm Hk w Hin. unfold bind. specialize (Hm w Hin).
  destruct (m w) as [w1 [a|e]]; simpl in *; [by apply Hk | done].
Qed.

Lemma keeps_encode_images (self : EmbeddingEngine) (images : list Image) :
  keeps path (encode_images self images).
Proof.
  destruct images; [apply keeps_ret|]. apply keeps_try_except.
  - apply keeps_bind; [apply keeps_emit | intros; apply keeps_lift].
  - intros e. apply keeps_bind; [apply keeps_log | intros; apply keeps_ret].
Qed.

Lemma keeps_encode_text (self : EmbeddingEngine) (text_list : list string) :
  keeps path (encode_text self text_list).
Proof.
  destruct text_list; [apply keeps_ret|]. apply keeps_try_except.
  - apply keeps_bind; [apply keeps_emit | intros; apply keeps_lift].
  - intros e. apply keeps_bind; [apply keeps_log | intros; apply keeps_ret].
Qed.

Lemma keeps_pair_up {A} (entry : list float → A → gmap string pyval)
    (embeddings : list (list float)) (xs : list A) :
  keeps path (pair_up entry embeddings 0 xs []).
Proof. intros w Hin. by rewrite pair_up_zip. Qed.

Lemma keeps_index_video (self : VectorStore) (video_id : string)
    (visual_vectors audio_vectors : list (gmap string pyval))
    (metadata : gmap string pyval) :
  keeps path (index_video self video_id visual_vectors audio_vectors metadata).
Proof.
  intros w Hin.
  destruct (valid_vectors self (visual_vectors ++ audio_vectors)) eqn:Hvalid.
  - by rewrite index_video_built.
  - by destruct (index_video_refused self video_id visual_vectors
                   audio_vectors metadata w Hvalid) as [n ->].
Qed.

Lemma keeps_extract_frames (os : host) (video_path : string) (interval : Z) :
  keeps path (extract_frames os video_path interval).
Proof.
  intros w Hin. destruct (decide (video_path ∈ files w)).
  - by rewrite extract_frames_present.
  - by rewrite extract_frames_missing.
Qed.

Lemma keeps_extract_audio_segments (os : host) (self : VideoProcessor)
    (video_path : string) :
  creates_temp os video_path ≠ Some path →
  keeps path (extract_audio_segments os self video_path).
Proof.
  intros Htemp w Hin. destruct (decide (video_path ∈ files w)) as [Hv|Hv].
  - destruct (extract_audio_segments_present os self video_path w Hv)
      as (w' & -> & _ & Hfiles).
    simpl. destruct (creates_temp os video_path) as [temp|].
    + destruct Hfiles as [_ Hother]. apply Hother; congruence.
    + by rewrite Hfiles.
  - by rewrite extract_audio_segments_missing.
Qed.

Lemma keeps_on_raise_os_remove (os : host) :
  keeps_on_raise path (os_remove os path).
Proof.
  intros w Hin. unfold os_remove. eff_unfold. simpl.
  rewrite bool_decide_eq_true_2 by done. simpl.
  by destruct (os_remove_fails os path).
Qed.

End Keeps.

(** The body of [process_video_task] keeps the uploaded file whenever
    it raises. *)
Lemma process_video_keeps_on_raise (os : host) (state : app_state)
    (file_path video_id : string) :
  creates_temp os file_path ≠ Some file_path →
  keeps_on_raise file_path (process_video os state file_path video_id).
Proof.
  intros Htemp. unfold process_video.
  apply keeps_on_raise_bind; [apply keeps_log|]. intros _.
  apply keeps_on_raise_bind; [apply keeps_extract_frames|]. intros frames.
  apply keeps_on_raise_bind; [by apply keeps_extract_audio_segments|].
  intros audio_segments.
  apply keeps_on_raise_bind.
  { destruct (nonempty frames); [|apply keeps_ret].
    apply keeps_bind; [apply keeps_encode_images|].
    intros. apply keeps_pair_up. }
  intros visual_vectors_data.
  apply keeps_on_raise_bind.
  { destruct (nonempty audio_segments); [|apply keeps_ret].
    apply keeps_bind; [apply keeps_encode_text|].
    intros. apply keeps_pair_up. }
  intros audio_vectors_data.
  apply keeps_on_raise_bind; [apply keeps_index_video|]. intros _.
  apply keeps_on_raise_bind; [apply keeps_log|]. intros _.
  intros w Hin. unfold bind, os_path_exists.
  rewrite bool_decide_eq_true_2 by done.
  by apply keeps_on_raise_os_remove.
Qed.

(** X20.  [process_video_task] never raises: whatever the extraction,
    the models, the index and the file system do, it returns.  On a
    file that does not exist it only logs the start and the
    [FileNotFoundError]. *)
Theorem process_video_task_never_raises (os : host) (state : app_state)
    (file_path video_id : string) (w : world) :
  snd (process_video_task os state file_path video_id w) = Ret tt
  ∧ (file_path ∉ files w →
     added w (fst (process_video_task os state file_path video_id w))
     = [Log INFO "Starting processing for {}..." [AStr video_id];
        Log ERROR "Error processing video {}: {}"
            [AStr video_id; AExn FileNotFoundError]]).
Proof.
  split.
  - unfold process_video_task, try_except.
    destruct (process_video _ _ _ _ _) as [w1 [[]|e]]; done.
  - intros Hout. unfold process_video_task, try_except, process_video.
    unfold bind at 1, log at 1, emit at 1. simpl.
    unfold bind at 1. rewrite extract_frames_missing by done. simpl.
    unfold added. simpl. by rewrite <- app_assoc, drop_app_length.
Qed.

Lemma process_video_task_never_raises_witness :
  added demo_world
    (fst (process_video_task demo_host working_state "absent.mp4" "vid"
            demo_world))
  = [Log INFO "Starting processing for {}..." [AStr "vid"];
     Log ERROR "Error processing video {}: {}"
         [AStr "vid"; AExn FileNotFoundError]].
Proof.
  destruct (process_video_task_never_raises demo_host working_state
              "absent.mp4" "vid" demo_world) as [_ Hmissing].
  apply Hmissing. compute_done.
Defined.

(** X21.  When the processing of an uploaded video fails at any stage
    (a frame or a segment without embedding, a file that cannot be
    removed, ...), the task logs the failure and the uploaded file is
    still on disk afterwards: only a run that reaches its end removes
    it.  The temporary audio file is assumed not to take the name of
    the upload. *)
Theorem failed_ingestion_keeps_upload (os : host) (state : app_state)
    (file_path video_id : string) (w : world) (e : exn) :
  file_path ∈ files w →
  creates_temp os file_path ≠ Some file_path →
  snd (process_video os state file_path video_id w) = Raise e →
  let w' := fst (process_video_task os state file_path video_id w) in
  file_path ∈ files w'
  ∧ last (trace w')
    = Some (Log ERROR "Error processing video {}: {}"
                [AStr video_id; AExn e]).
Proof.
  intros Hin Htemp Hraise w'. subst w'.
  pose proof (process_video_keeps_on_raise os state file_path video_id
                Htemp w Hin) as Hkeep.
  unfold process_video_task, try_except.
  destruct (process_video os state file_path video_id w) as [w1 o].
  simpl in *. subst o. unfold log, emit. simpl.
  split; [done|]. by rewrite last_snoc.
Qed.

Lemma failed_ingestion_keeps_upload_witness :
  "upload.mp4"
    ∈ files (fst (process_video_task demo_host failing_state "upload.mp4"
                    "vid" demo_world)).
Proof.
  destruct (failed_ingestion_keeps_upload demo_host failing_state
              "upload.mp4" "vid" demo_world IndexError) as [Hkept _];
    [compute_done | by vm_compute | by vm_compute |].
  exact Hkept.
Defined.








